(** * Counter overflow compensation cache of the tplink_gateway input plugin

    A shallow embedding of [plugins/inputs/tplink_gateway/overflow_cache.go]
    together with the parts of the Go runtime and standard library the cache
    calls into (map indexing, [unicode/utf8], [strconv], [encoding/json] and
    [io/ioutil]), followed by the properties of the cache.

    Conventions.
    - A Go [string] or [[]byte] is a [string] (a sequence of 8-bit [ascii]).
    - A [uint64] is an [N]; every addition the source performs on [uint64]
      is followed by an explicit [wrap64].
    - A Go [map[string]uint64] is an [option (gmap string N)]; [None] is the
      nil map, which can be read but not assigned to.
    - A Go panic is the result [None] of a function returning [option].
    - Calls to [log.Printf] only write diagnostics and are not modelled.

    The second part embeds [plugins/inputs/tplink_gateway/tplink_gateway.go],
    the plugin that uses the cache, with the functions of [strconv] and
    [strings] it calls.
    - An [int] is a [Z]; arithmetic on indices is followed by an explicit
      [wrap_int].  Indexing and slicing out of range are panics.
    - An [error] made by [fmt.Errorf] is kept as the format and its
      argument.
    - The network, [url.Parse], [net.LookupHost] and [time.ParseDuration]
      are functions of an [Environment] that every statement quantifies
      over.
    - The accumulator is the list of the points added to it.

    The library functions follow their documentation.  [json.Marshal] of a
    map writes [null] for a nil map and otherwise an object with the keys
    in sorted order; strings are coerced to valid UTF-8, each invalid byte
    becoming U+FFFD, and the bytes that are unsafe in HTML, U+2028 and
    U+2029 are escaped.  [json.Unmarshal] checks that the whole input is
    valid JSON before it stores anything; it stores an object into the map
    it is given, allocating one only if that map is nil and keeping the
    entries already there; a value that does not fit the Go type is
    skipped and reported once the rest has been stored; [null] sets the
    map to nil. *)

From Stdlib Require Import NArith Lia String Ascii DecimalString DecimalN DecimalFacts.
From stdpp Require Import gmap strings list fin_maps sorting.

Set Warnings "-register-all".
Local Open Scope N_scope.

(** ** Bytes and machine integers *)

Definition code (c : ascii) : N := N_of_ascii c.
Definition byte (n : N) : ascii := ascii_of_N (n mod 256).

Definition dquote : ascii := "034"%char.
Definition backslash : ascii := "092"%char.

Definition two64 : N := 18446744073709551616.
Definition wrap64 (n : N) : N := n mod two64.

Fixpoint string_rev_app (s acc : string) : string :=
  match s with
  | EmptyString => acc
  | String c r => string_rev_app r (String c acc)
  end.

Definition string_rev (s : string) : string := string_rev_app s EmptyString.

(** [s[n:]], empty when [n] exceeds the length *)
Fixpoint string_drop (n : nat) (s : string) : string :=
  match n, s with
  | S k, String _ r => string_drop k r
  | _, _ => s
  end.

(** ** Go maps with zero value on miss and nil maps *)

Definition entry (g : gmap string N) (k : string) : N := default 0 (g !! k).

Definition map_index (m : option (gmap string N)) (k : string) : N :=
  match m with
  | Some g => entry g k
  | None => 0
  end.

Definition map_comma_ok (m : option (gmap string N)) (k : string) : bool :=
  match m with
  | Some g => bool_decide (is_Some (g !! k))
  | None => false
  end.

(** [m[k] = v]; assigning to an entry of a nil map panics. *)
Definition map_assign (m : option (gmap string N)) (k : string) (v : N)
  : option (option (gmap string N)) :=
  match m with
  | Some g => Some (Some (<[k := v]> g))
  | None => None
  end.

(** ** unicode/utf8 *)

Module utf8.

Definition RuneError : N := 65533.
Definition RuneSelf : N := 128.
Definition MaxRune : N := 1114111.

(** The [first] table together with [acceptRanges]: for a leading byte of a
    multi-byte sequence, the size of the sequence and the range accepted for
    the second byte. *)
Definition lead (s0 : N) : option (nat * N * N) :=
  if (194 <=? s0) && (s0 <=? 223) then Some (2%nat, 128, 191)
  else if s0 =? 224 then Some (3%nat, 160, 191)
  else if (225 <=? s0) && (s0 <=? 236) then Some (3%nat, 128, 191)
  else if s0 =? 237 then Some (3%nat, 128, 159)
  else if (238 <=? s0) && (s0 <=? 239) then Some (3%nat, 128, 191)
  else if s0 =? 240 then Some (4%nat, 144, 191)
  else if (241 <=? s0) && (s0 <=? 243) then Some (4%nat, 128, 191)
  else if s0 =? 244 then Some (4%nat, 128, 143)
  else None.

Definition cont (b : N) : bool := (128 <=? b) && (b <=? 191).

Definition DecodeRuneInString (s : string) : N * nat :=
  match s with
  | EmptyString => (RuneError, 0%nat)
  | String c0 r0 =>
    let s0 := code c0 in
    if s0 <? RuneSelf then (s0, 1%nat) else
    match lead s0 with
    | None => (RuneError, 1%nat)
    | Some (sz, lo, hi) =>
      match r0 with
      | EmptyString => (RuneError, 1%nat)
      | String c1 r1 =>
        let s1 := code c1 in
        if (s1 <? lo) || (hi <? s1) then (RuneError, 1%nat) else
        if (sz <=? 2)%nat then
          (N.lor (N.shiftl (N.land s0 31) 6) (N.land s1 63), 2%nat)
        else
        match r1 with
        | EmptyString => (RuneError, 1%nat)
        | String c2 r2 =>
          let s2 := code c2 in
          if negb (cont s2) then (RuneError, 1%nat) else
          if (sz <=? 3)%nat then
            (N.lor (N.lor (N.shiftl (N.land s0 15) 12)
                          (N.shiftl (N.land s1 63) 6)) (N.land s2 63), 3%nat)
          else
          match r2 with
          | EmptyString => (RuneError, 1%nat)
          | String c3 _ =>
            let s3 := code c3 in
            if negb (cont s3) then (RuneError, 1%nat) else
            (N.lor (N.lor (N.lor (N.shiftl (N.land s0 7) 18)
                                 (N.shiftl (N.land s1 63) 12))
                          (N.shiftl (N.land s2 63) 6)) (N.land s3 63), 4%nat)
          end
        end
      end
    end
  end.

Definition encode3 (r : N) : string :=
  String (byte (N.lor 224 (N.shiftr r 12)))
    (String (byte (N.lor 128 (N.land (N.shiftr r 6) 63)))
       (String (byte (N.lor 128 (N.land r 63))) EmptyString)).

Definition EncodeRune (r : N) : string :=
  if r <=? 127 then String (byte r) EmptyString
  else if r <=? 2047 then
    String (byte (N.lor 192 (N.shiftr r 6)))
      (String (byte (N.lor 128 (N.land r 63))) EmptyString)
  else if (MaxRune <? r) || ((55296 <=? r) && (r <=? 57343)) then
    encode3 RuneError
  else if r <=? 65535 then encode3 r
  else
    String (byte (N.lor 240 (N.shiftr r 18)))
      (String (byte (N.lor 128 (N.land (N.shiftr r 12) 63)))
         (String (byte (N.lor 128 (N.land (N.shiftr r 6) 63)))
            (String (byte (N.lor 128 (N.land r 63))) EmptyString))).

(** [ValidString]: the string is a sequence of well-formed encodings.  The
    argument [pending] counts the bytes of the current sequence that the
    decoder has already accepted and that are still to be passed over. *)
Fixpoint valid_from (pending : nat) (s : string) : bool :=
  match s with
  | EmptyString => true
  | String _ r =>
    match pending with
    | S p => valid_from p r
    | O =>
      let '(rn, size) := DecodeRuneInString s in
      if (rn =? RuneError) && (size =? 1)%nat then false
      else valid_from (size - 1) r
    end
  end.

Definition ValidString (s : string) : bool := valid_from 0 s.

End utf8.

(** ** strconv *)

Module strconv.

(** [FormatUint(n, 10)] *)
Definition FormatUint (n : N) : string :=
  NilEmpty.string_of_uint (N.to_uint n).

(** [ParseUint(s, 10, 64)]: a non-empty sequence of decimal digits denoting
    a value below [2^64]; anything else is an error. *)
Definition ParseUint (s : string) : option N :=
  match s with
  | EmptyString => None
  | String _ _ =>
    match NilEmpty.uint_of_string s with
    | Some d => let n := N.of_uint d in if n <? two64 then Some n else None
    | None => None
    end
  end.

End strconv.

(** ** Errors *)

Inductive error :=
| ErrNotExist           (* os: the file does not exist *)
| ErrPermission         (* os: permission denied *)
| SyntaxError           (* encoding/json: the input is not JSON *)
| UnmarshalTypeError.   (* encoding/json: a JSON value does not fit the Go type *)

(** ** encoding/json *)

Module json.

(** *** Encoding *)

Definition hex : string := "0123456789abcdef".

Definition hex_digit (n : N) : ascii :=
  default "0"%char (String.get (N.to_nat n) hex).

(** Bytes below [RuneSelf] that the encoder copies unchanged (with HTML
    escaping on, as [Marshal] has it). *)
Definition htmlSafe (b : N) : bool :=
  (32 <=? b) && negb (b =? 92) && negb (b =? 34)
  && negb (b =? 60) && negb (b =? 62) && negb (b =? 38).

Definition escape_byte (c : ascii) : string :=
  let b := code c in
  if (b =? 92) || (b =? 34) then String backslash (String c EmptyString)
  else if b =? 10 then "\n"
  else if b =? 13 then "\r"
  else if b =? 9 then "\t"
  else "\u00" +:+ String (hex_digit (N.shiftr b 4))
                    (String (hex_digit (N.land b 15)) EmptyString).

(** The loop of [encodeState.string].  [pending] bytes of the sequence
    decoded last are still ahead; they are copied when [keep] is set and
    passed over otherwise. *)
Fixpoint escape (keep : bool) (pending : nat) (s : string) : string :=
  match s with
  | EmptyString => EmptyString
  | String c r =>
    match pending with
    | S p => if keep then String c (escape keep p r) else escape keep p r
    | O =>
      if code c <? utf8.RuneSelf then
        if htmlSafe (code c) then String c (escape true 0 r)
        else escape_byte c +:+ escape true 0 r
      else
        let '(rn, size) := utf8.DecodeRuneInString s in
        if (rn =? utf8.RuneError) && (size =? 1)%nat then
          "\ufffd" +:+ escape true 0 r
        else if (rn =? 8232) || (rn =? 8233) then
          "\u202" +:+ String (hex_digit (N.land rn 15))
                        (escape false (size - 1) r)
        else String c (escape true (size - 1) r)
    end
  end.

Definition encode_string (s : string) : string :=
  String dquote (escape true 0 s +:+ String dquote EmptyString).

(** Map keys are written in sorted order. *)
Definition key_le (x y : string * N) : Prop := String.leb x.1 y.1 = true.

#[global] Instance key_le_dec (x y : string * N) : Decision (key_le x y).
Proof. unfold key_le. apply _. Defined.

Definition sorted_entries (g : gmap string N) : list (string * N) :=
  merge_sort key_le (map_to_list g).

Fixpoint encode_members (first : bool) (l : list (string * N)) : string :=
  match l with
  | [] => EmptyString
  | (k, v) :: r =>
    (if first then EmptyString else ",") +:+
    encode_string k +:+ ":" +:+ strconv.FormatUint v +:+ encode_members false r
  end.

Definition encode_map (m : option (gmap string N)) : string :=
  match m with
  | None => "null"
  | Some g => "{" +:+ encode_members true (sorted_entries g) +:+ "}"
  end.

(** [Marshal] of a [map[string]uint64] cannot fail. *)
Definition Marshal (m : option (gmap string N)) : string * option error :=
  (encode_map m, None).

(** *** Scanning *)

Inductive token :=
| TBeginObject | TEndObject | TBeginArray | TEndArray | TColon | TComma
| TString (raw : string)      (* the text between the quotes, still escaped *)
| TNumber (lit : string)
| TTrue | TFalse | TNull.

Inductive numstate :=
| NNeg | NZero | NInt | NDot | NFrac | NE | NESign | NExp.

Inductive lexstate :=
| LValue                            (* between tokens *)
| LString (acc : string)            (* inside a string literal *)
| LEsc (acc : string)               (* after a backslash *)
| LU (acc : string) (n : nat)       (* inside \u, [n] digits to come *)
| LNum (st : numstate) (acc : string)
| LLit (rest : string) (t : token). (* inside true, false or null *)

Definition is_space (c : ascii) : bool :=
  let b := code c in (b =? 32) || (b =? 9) || (b =? 13) || (b =? 10).

Definition is_digit (c : ascii) : bool := (48 <=? code c) && (code c <=? 57).
Definition is_digit19 (c : ascii) : bool := (49 <=? code c) && (code c <=? 57).

Definition hexval (c : ascii) : option N :=
  let b := code c in
  if (48 <=? b) && (b <=? 57) then Some (b - 48)
  else if (97 <=? b) && (b <=? 102) then Some (b - 97 + 10)
  else if (65 <=? b) && (b <=? 70) then Some (b - 65 + 10)
  else None.

Definition one (c : ascii) : string := String c EmptyString.

(** A byte met between two tokens: the token it makes, if any, and the
    state it leads to. *)
Definition begin_value (c : ascii) : option (option token * lexstate) :=
  if is_space c then Some (None, LValue)
  else if Ascii.eqb c "{" then Some (Some TBeginObject, LValue)
  else if Ascii.eqb c "}" then Some (Some TEndObject, LValue)
  else if Ascii.eqb c "[" then Some (Some TBeginArray, LValue)
  else if Ascii.eqb c "]" then Some (Some TEndArray, LValue)
  else if Ascii.eqb c ":" then Some (Some TColon, LValue)
  else if Ascii.eqb c "," then Some (Some TComma, LValue)
  else if Ascii.eqb c dquote then Some (None, LString EmptyString)
  else if Ascii.eqb c "-" then Some (None, LNum NNeg (one c))
  else if Ascii.eqb c "0" then Some (None, LNum NZero (one c))
  else if is_digit19 c then Some (None, LNum NInt (one c))
  else if Ascii.eqb c "t" then Some (None, LLit "rue" TTrue)
  else if Ascii.eqb c "f" then Some (None, LLit "alse" TFalse)
  else if Ascii.eqb c "n" then Some (None, LLit "ull" TNull)
  else None.

Definition is_e (c : ascii) : bool := Ascii.eqb c "e" || Ascii.eqb c "E".

Definition num_step (st : numstate) (c : ascii) : option numstate :=
  match st with
  | NNeg => if Ascii.eqb c "0" then Some NZero
            else if is_digit19 c then Some NInt else None
  | NZero => if Ascii.eqb c "." then Some NDot
             else if is_e c then Some NE else None
  | NInt => if is_digit c then Some NInt
            else if Ascii.eqb c "." then Some NDot
            else if is_e c then Some NE else None
  | NDot => if is_digit c then Some NFrac else None
  | NFrac => if is_digit c then Some NFrac
             else if is_e c then Some NE else None
  | NE => if Ascii.eqb c "+" || Ascii.eqb c "-" then Some NESign
          else if is_digit c then Some NExp else None
  | NESign => if is_digit c then Some NExp else None
  | NExp => if is_digit c then Some NExp else None
  end.

Definition num_final (st : numstate) : bool :=
  match st with
  | NZero | NInt | NFrac | NExp => true
  | _ => false
  end.

Definition is_escape (c : ascii) : bool :=
  Ascii.eqb c "b" || Ascii.eqb c "f" || Ascii.eqb c "n" || Ascii.eqb c "r"
  || Ascii.eqb c "t" || Ascii.eqb c backslash || Ascii.eqb c "/"
  || Ascii.eqb c dquote.

Definition emit (t : option token) (ts : option (list token))
  : option (list token) :=
  match t with
  | Some t => cons t <$> ts
  | None => ts
  end.

Fixpoint lex (st : lexstate) (s : string) : option (list token) :=
  match s with
  | EmptyString =>
    match st with
    | LValue => Some []
    | LNum ns acc =>
      if num_final ns then Some [TNumber (string_rev acc)] else None
    | _ => None
    end
  | String c r =>
    match st with
    | LValue =>
      match begin_value c with
      | Some (t, st') => emit t (lex st' r)
      | None => None
      end
    | LString acc =>
      if Ascii.eqb c dquote then cons (TString (string_rev acc)) <$> lex LValue r
      else if Ascii.eqb c backslash then lex (LEsc (String c acc)) r
      else if code c <? 32 then None
      else lex (LString (String c acc)) r
    | LEsc acc =>
      if is_escape c then lex (LString (String c acc)) r
      else if Ascii.eqb c "u" then lex (LU (String c acc) 4) r
      else None
    | LU acc n =>
      match hexval c, n with
      | Some _, 1%nat => lex (LString (String c acc)) r
      | Some _, S n' => lex (LU (String c acc) n') r
      | _, _ => None
      end
    | LNum ns acc =>
      match num_step ns c with
      | Some ns' => lex (LNum ns' (String c acc)) r
      | None =>
        if num_final ns then
          match begin_value c with
          | Some (t, st') =>
            cons (TNumber (string_rev acc)) <$> emit t (lex st' r)
          | None => None
          end
        else None
      end
    | LLit rest t =>
      match rest with
      | String e EmptyString =>
        if Ascii.eqb c e then cons t <$> lex LValue r else None
      | String e rest' =>
        if Ascii.eqb c e then lex (LLit rest' t) r else None
      | EmptyString => None
      end
    end
  end.

(** *** Unquoting *)

Definition getu4 (s : string) : option N :=
  match s with
  | String b (String u (String h1 (String h2 (String h3 (String h4 _))))) =>
    if Ascii.eqb b backslash && Ascii.eqb u "u" then
      match hexval h1, hexval h2, hexval h3, hexval h4 with
      | Some a, Some b, Some c, Some d => Some (((a * 16 + b) * 16 + c) * 16 + d)
      | _, _, _, _ => None
      end
    else None
  | _ => None
  end.

Definition IsSurrogate (r : N) : bool := (55296 <=? r) && (r <? 57344).

(** [utf16.DecodeRune]; [r2] is absent when no second escape follows. *)
Definition utf16_DecodeRune (r1 : N) (r2 : option N) : N :=
  match r2 with
  | Some r2 =>
    if (55296 <=? r1) && (r1 <? 56320) && (56320 <=? r2) && (r2 <? 57344)
    then N.lor (N.shiftl (r1 - 55296) 10) (r2 - 56320) + 65536
    else utf8.RuneError
  | None => utf8.RuneError
  end.

Definition unescape (c : ascii) : option ascii :=
  if Ascii.eqb c dquote || Ascii.eqb c backslash || Ascii.eqb c "/"
     || Ascii.eqb c "'" then Some c
  else if Ascii.eqb c "b" then Some (byte 8)
  else if Ascii.eqb c "f" then Some (byte 12)
  else if Ascii.eqb c "n" then Some (byte 10)
  else if Ascii.eqb c "r" then Some (byte 13)
  else if Ascii.eqb c "t" then Some (byte 9)
  else None.

(** The loop of [unquoteBytes]; [skip] bytes ahead belong to the escape or
    the sequence handled last. *)
Fixpoint unquote (skip : nat) (s : string) : option string :=
  match s with
  | EmptyString => Some EmptyString
  | String c r =>
    match skip with
    | S k => unquote k r
    | O =>
      if Ascii.eqb c backslash then
        match r with
        | EmptyString => None
        | String e _ =>
          if Ascii.eqb e "u" then
            match getu4 s with
            | None => None
            | Some rr =>
              if IsSurrogate rr then
                let dec := utf16_DecodeRune rr (getu4 (string_drop 6 s)) in
                if negb (dec =? utf8.RuneError) then
                  String.append (utf8.EncodeRune dec) <$> unquote 11 r
                else
                  String.append (utf8.EncodeRune utf8.RuneError) <$> unquote 5 r
              else String.append (utf8.EncodeRune rr) <$> unquote 5 r
            end
          else
            match unescape e with
            | Some x => String x <$> unquote 1 r
            | None => None
            end
        end
      else if Ascii.eqb c dquote || (code c <? 32) then None
      else if code c <? utf8.RuneSelf then String c <$> unquote 0 r
      else
        let '(rr, size) := utf8.DecodeRuneInString s in
        String.append (utf8.EncodeRune rr) <$> unquote (size - 1) r
    end
  end.

(** *** Parsing *)

Inductive value :=
| Null
| Bool (b : bool)
| Number (lit : string)
| Str (s : string)
| Array (l : list value)
| Object (l : list (string * value)).

Inductive frame :=
| FArray (done : list value)
| FObject (done : list (string * value)) (key : option string).

Inductive pstate :=
| PValue (close_ok : bool)   (* a value; also the end of an empty array *)
| PKey (close_ok : bool)     (* a key; also the end of an empty object *)
| PColon
| PEnd                       (* a comma or the end of the container *)
| PDone (v : value).         (* after the top-level value *)

Definition deliver (v : value) (stack : list frame)
  : option (list frame * pstate) :=
  match stack with
  | [] => Some ([], PDone v)
  | FArray done :: st => Some (FArray (v :: done) :: st, PEnd)
  | FObject done (Some k) :: st => Some (FObject ((k, v) :: done) None :: st, PEnd)
  | FObject _ None :: _ => None
  end.

Definition scalar (t : token) : option value :=
  match t with
  | TString raw => Str <$> unquote 0 raw
  | TNumber lit => Some (Number lit)
  | TTrue => Some (Bool true)
  | TFalse => Some (Bool false)
  | TNull => Some Null
  | _ => None
  end.

Fixpoint parse (stack : list frame) (ps : pstate) (ts : list token)
  : option value :=
  match ts with
  | [] => match ps with PDone v => Some v | _ => None end
  | t :: r =>
    match ps with
    | PValue close_ok =>
      match t with
      | TBeginArray => parse (FArray [] :: stack) (PValue true) r
      | TBeginObject => parse (FObject [] None :: stack) (PKey true) r
      | TEndArray =>
        match close_ok, stack with
        | true, FArray _ :: st =>
          match deliver (Array []) st with
          | Some (st', ps') => parse st' ps' r
          | None => None
          end
        | _, _ => None
        end
      | _ =>
        match scalar t with
        | Some v =>
          match deliver v stack with
          | Some (st', ps') => parse st' ps' r
          | None => None
          end
        | None => None
        end
      end
    | PKey close_ok =>
      match t, stack with
      | TString raw, FObject done _ :: st =>
        match unquote 0 raw with
        | Some k => parse (FObject done (Some k) :: st) PColon r
        | None => None
        end
      | TEndObject, FObject _ _ :: st =>
        if close_ok then
          match deliver (Object []) st with
          | Some (st', ps') => parse st' ps' r
          | None => None
          end
        else None
      | _, _ => None
      end
    | PColon =>
      match t with
      | TColon => parse stack (PValue false) r
      | _ => None
      end
    | PEnd =>
      match t, stack with
      | TComma, FArray _ :: _ => parse stack (PValue false) r
      | TComma, FObject _ _ :: _ => parse stack (PKey false) r
      | TEndArray, FArray done :: st =>
        match deliver (Array (rev done)) st with
        | Some (st', ps') => parse st' ps' r
        | None => None
        end
      | TEndObject, FObject done _ :: st =>
        match deliver (Object (rev done)) st with
        | Some (st', ps') => parse st' ps' r
        | None => None
        end
      | _, _ => None
      end
    | PDone _ => None
    end
  end.

(** The whole input as one JSON value, or [None] if it is not valid JSON
    (what [checkValid] rejects). *)
Definition decode (data : string) : option value :=
  match lex LValue data with
  | Some ts => parse [] (PValue false) ts
  | None => None
  end.

(** *** Decoding into a [map[string]uint64] *)

(** The [uint64] stored for a member value, and whether the value did not
    fit: a number is stored if [ParseUint] accepts its text, [null] leaves
    the zero value, anything else is a type error that leaves the zero
    value. *)
Definition store_elem (v : value) : N * bool :=
  match v with
  | Number lit =>
    match strconv.ParseUint lit with
    | Some n => (n, false)
    | None => (0, true)
    end
  | Null => (0, false)
  | _ => (0, true)
  end.

Fixpoint store_members (ms : list (string * value)) (g : gmap string N)
  (failed : bool) : gmap string N * bool :=
  match ms with
  | [] => (g, failed)
  | (k, v) :: r =>
    let '(n, e) := store_elem v in
    store_members r (<[k := n]> g) (failed || e)
  end.

(** [Unmarshal(data, &m)] for [m] of type [map[string]uint64]: the error
    returned and the map [m] holds afterwards.  Invalid JSON is rejected
    before anything is stored.  A JSON object is stored member by member
    into the map [m] already holds (a new one if [m] is nil), entries of
    other keys being kept; members that do not fit are reported after all
    members have been stored.  [null] sets [m] to nil.  Any other value is
    a type error and leaves [m] alone. *)
Definition Unmarshal (data : string) (m : option (gmap string N))
  : option error * option (gmap string N) :=
  match decode data with
  | None => (Some SyntaxError, m)
  | Some Null => (None, None)
  | Some (Object ms) =>
    let '(g, failed) := store_members ms (default ∅ m) false in
    (if failed then Some UnmarshalTypeError else None, Some g)
  | Some _ => (Some UnmarshalTypeError, m)
  end.

End json.

(** ** io/ioutil *)

(** The part of the file system the cache can see: the content of the
    regular files, and the paths the process may not read or write.  The
    empty path names no file. *)
Record FileSystem := {
  files : gmap string string;
  unreadable : gset string;
  unwritable : gset string
}.

Module ioutil.

Definition ReadFile (fs : FileSystem) (name : string) : string * option error :=
  match files fs !! name with
  | None => (EmptyString, Some ErrNotExist)
  | Some content =>
    if bool_decide (name ∈ unreadable fs) then (EmptyString, Some ErrPermission)
    else (content, None)
  end.

Definition WriteFile (fs : FileSystem) (name : string) (data : string)
  : option error * FileSystem :=
  if bool_decide (name = EmptyString) then (Some ErrNotExist, fs)
  else if bool_decide (name ∈ unwritable fs) then (Some ErrPermission, fs)
  else (None, {| files := <[name := data]> (files fs);
                 unreadable := unreadable fs;
                 unwritable := unwritable fs |}).

End ioutil.

(** ** overflow_cache.go *)

Record overflowCache := {
  filename : string;
  values : option (gmap string N);
  baseValues : option (gmap string N)
}.

(** [new(overflowCache)]: every field has its zero value. *)
Definition new_overflowCache : overflowCache :=
  {| filename := EmptyString; values := None; baseValues := None |}.

Definition init (c : overflowCache) : overflowCache :=
  {| filename := filename c; values := Some ∅; baseValues := Some ∅ |}.

Definition load (c : overflowCache) (fs : FileSystem)
  : option error * overflowCache :=
  let '(content, err) := ioutil.ReadFile fs (filename c) in
  match err with
  | Some e => (Some e, c)
  | None =>
    let '(err, bv) := json.Unmarshal content (baseValues c) in
    (err, {| filename := filename c; values := values c; baseValues := bv |})
  end.

Definition dump (c : overflowCache) (fs : FileSystem)
  : option error * FileSystem :=
  let '(content, err) := json.Marshal (baseValues c) in
  match err with
  | Some e => (Some e, fs)
  | None => ioutil.WriteFile fs (filename c) content
  end.

(** [setup] only logs the error of [load]. *)
Definition setup (c : overflowCache) (fs : FileSystem) (name : string)
  (dumpInterval : N) : overflowCache :=
  let c := {| filename := name; values := values c;
              baseValues := baseValues c |} in
  (load c fs).2.

(** The key under which a counter is kept (line 32). *)
Definition identity (section key : string) : string :=
  section +:+ "_" +:+ key.

(** [checkOverflow] returns the corrected value and the overflow flag; the
    cache and the file system after the call are returned with them.  The
    dump deferred on overflow runs once the result has been computed. *)
Definition checkOverflow (c : overflowCache) (fs : FileSystem)
  (section key : string) (currentValue increment : N)
  : option (N * bool * overflowCache * FileSystem) :=
  let key := identity section key in
  let overflown := currentValue <? map_index (values c) key in
  bv ← (if overflown then
          bv ← (if negb (map_comma_ok (baseValues c) key)
                then map_assign (baseValues c) key 0
                else Some (baseValues c));
          map_assign bv key (wrap64 (map_index bv key + increment))
        else Some (baseValues c));
  vs ← map_assign (values c) key currentValue;
  let c' := {| filename := filename c; values := vs; baseValues := bv |} in
  let result := wrap64 (currentValue + map_index bv key) in
  let fs' := if overflown then (dump c' fs).2 else fs in
  Some (result, overflown, c', fs').

Definition get (c : overflowCache) (fs : FileSystem)
  (section key : string) (currentValue increment : N)
  : option (N * overflowCache * FileSystem) :=
  '(value, _, c', fs') ← checkOverflow c fs section key currentValue increment;
  Some (value, c', fs').

(** A run of calls for one counter with one increment: the results of the
    calls in order and the state after the last one. *)
Fixpoint observe_all (c : overflowCache) (fs : FileSystem)
  (section key : string) (increment : N) (raws : list N)
  : option (list (N * bool) * overflowCache * FileSystem) :=
  match raws with
  | [] => Some ([], c, fs)
  | raw :: rest =>
    '(v, o, c1, fs1) ← checkOverflow c fs section key raw increment;
    '(out, c2, fs2) ← observe_all c1 fs1 section key increment rest;
    Some ((v, o) :: out, c2, fs2)
  end.

Definition empty_fs : FileSystem :=
  {| files := ∅; unreadable := ∅; unwritable := ∅ |}.

(** The cache the plugin starts with: [new(overflowCache).init()]. *)
Definition fresh : overflowCache := init new_overflowCache.

(** A cache whose two maps exist, as [init] leaves them. *)
Definition initialised (c : overflowCache) : Prop :=
  is_Some (values c) ∧ is_Some (baseValues c).

Fixpoint nondecreasing (l : list N) : bool :=
  match l with
  | x :: r =>
    match r with
    | y :: _ => (x <=? y) && nondecreasing r
    | [] => true
    end
  | [] => true
  end.

Definition outputs {A B : Type} (r : option (list (N * bool) * A * B))
  : option (list (N * bool)) :=
  (λ x, x.1.1) <$> r.

Definition MaxUint64 : N := 18446744073709551615.

(** ** strconv: the values returned together with an error *)

Module atoi.

Inductive NumError := ErrSyntax | ErrRange.

(** The smallest number whose product with ten exceeds [MaxUint64]. *)
Definition cutoff : N := 1844674407370955162.

(** The loop of [ParseUint(s, 10, 64)]. *)
Fixpoint digits (n : N) (s : string) : N * option NumError :=
  match s with
  | EmptyString => (n, None)
  | String d r =>
    if json.is_digit d then
      if cutoff <=? n then (MaxUint64, Some ErrRange)
      else
        let n1 := n * 10 + (code d - 48) in
        if two64 <=? n1 then (MaxUint64, Some ErrRange) else digits n1 r
    else (0, Some ErrSyntax)
  end.

Definition ParseUint (s : string) : N * option NumError :=
  match s with
  | EmptyString => (0, Some ErrSyntax)
  | String _ _ => digits 0 s
  end.

(** [ParseInt(s, 10, 0)] where [int] has 64 bits. *)
Definition ParseInt (s : string) : Z * option NumError :=
  match s with
  | EmptyString => (0%Z, Some ErrSyntax)
  | String c r =>
    let neg := Ascii.eqb c "-" in
    let s' := if Ascii.eqb c "+" || neg then r else s in
    match ParseUint s' with
    | (_, Some ErrSyntax) => (0%Z, Some ErrSyntax)
    | (un, _) =>
      if negb neg && (9223372036854775808 <=? un)
      then (9223372036854775807%Z, Some ErrRange)
      else if neg && (9223372036854775808 <? un)
      then ((-9223372036854775808)%Z, Some ErrRange)
      else (if neg then (- Z.of_N un)%Z else Z.of_N un, None)
    end
  end.

Definition Atoi (s : string) : Z * option NumError := ParseInt s.

End atoi.

(** ** strings *)

Module gostrings.

Fixpoint HasPrefix (s prefix : string) : bool :=
  match prefix, s with
  | EmptyString, _ => true
  | String p pr, String c r => Ascii.eqb c p && HasPrefix r pr
  | String _ _, EmptyString => false
  end.

(** [Index(s, sep)]; [None] stands for -1. *)
Fixpoint Index (s sep : string) : option nat :=
  if HasPrefix s sep then Some 0%nat
  else match s with
       | EmptyString => None
       | String _ r => S <$> Index r sep
       end.

(** [Replace(s, old, new, -1)] for a non-empty [old]: every occurrence of
    [old], found from the left and not overlapping, becomes [new].  [skip]
    bytes ahead belong to the occurrence replaced last. *)
Fixpoint replace_from (skip : nat) (s old new : string) : string :=
  match s with
  | EmptyString => EmptyString
  | String c r =>
    match skip with
    | S k => replace_from k r old new
    | O =>
      if HasPrefix s old then new +:+ replace_from (String.length old - 1) r old new
      else String c (replace_from 0 r old new)
    end
  end.

Definition Replace (s old new : string) : string := replace_from 0 s old new.

(** [Split(s, sep)] for a non-empty [sep]. *)
Fixpoint split_from (skip : nat) (cur : string) (s sep : string) : list string :=
  match s with
  | EmptyString => [string_rev cur]
  | String c r =>
    match skip with
    | S k => split_from k cur r sep
    | O =>
      if HasPrefix s sep
      then string_rev cur :: split_from (String.length sep - 1) EmptyString r sep
      else split_from 0 (String c cur) r sep
    end
  end.

Definition Split (s sep : string) : list string :=
  split_from 0 EmptyString s sep.

(** [unicode.IsSpace] *)
Definition IsSpace (r : N) : bool :=
  if r <=? 255 then
    ((9 <=? r) && (r <=? 13)) || (r =? 32) || (r =? 133) || (r =? 160)
  else
    (r =? 5760) || ((8192 <=? r) && (r <=? 8202)) || (r =? 8232) || (r =? 8233)
    || (r =? 8239) || (r =? 8287) || (r =? 12288).

(** [TrimLeftFunc(s, f)]: what is left from the first rune that [f]
    rejects.  [skip] bytes ahead belong to the rune accepted last. *)
Fixpoint trim_left (f : N → bool) (skip : nat) (s : string) : string :=
  match s with
  | EmptyString => EmptyString
  | String c r =>
    match skip with
    | S k => trim_left f k r
    | O =>
      let '(rn, wid) :=
        if code c <? utf8.RuneSelf then (code c, 1%nat)
        else utf8.DecodeRuneInString s in
      if f rn then trim_left f (wid - 1) r else s
    end
  end.

Definition TrimLeftFunc (s : string) (f : N → bool) : string := trim_left f 0 s.

Definition RuneStart (b : N) : bool := negb (N.land b 192 =? 128).

(** [utf8.DecodeLastRuneInString] of a string given backwards, last byte
    first (only the last five bytes matter). *)
Definition decode_last (back : string) : N * nat :=
  match back with
  | EmptyString => (utf8.RuneError, 0%nat)
  | String c0 b1 =>
    if code c0 <? utf8.RuneSelf then (code c0, 1%nat) else
    let check (fwd : string) :=
      let '(rn, size) := utf8.DecodeRuneInString fwd in
      if (size =? String.length fwd)%nat then (rn, size)
      else (utf8.RuneError, 1%nat) in
    match b1 with
    | EmptyString => check (String c0 EmptyString)
    | String c1 b2 =>
      if RuneStart (code c1) then check (String c1 (String c0 EmptyString)) else
      match b2 with
      | EmptyString => check (String c1 (String c0 EmptyString))
      | String c2 b3 =>
        if RuneStart (code c2)
        then check (String c2 (String c1 (String c0 EmptyString))) else
        match b3 with
        | EmptyString => check (String c2 (String c1 (String c0 EmptyString)))
        | String c3 b4 =>
          if RuneStart (code c3)
          then check (String c3 (String c2 (String c1 (String c0 EmptyString))))
          else
          match b4 with
          | EmptyString =>
            check (String c3 (String c2 (String c1 (String c0 EmptyString))))
          | String c4 _ =>
            check (String c4 (String c3 (String c2
                                 (String c1 (String c0 EmptyString)))))
          end
        end
      end
    end
  end.

(** [lastIndexFunc(s, f, false)] on the string given backwards: [i] is the
    length of what is still to be looked at.  [None] stands for -1. *)
Fixpoint last_index (f : N → bool) (skip : nat) (back : string) (i : nat)
  : option nat :=
  match back with
  | EmptyString => None
  | String _ r =>
    match skip with
    | S k => last_index f k r (i - 1)
    | O =>
      let '(rn, size) := decode_last back in
      if f rn then last_index f (size - 1) r (i - 1)
      else Some (i - size)%nat
    end
  end.

Definition TrimRightFunc (s : string) (f : N → bool) : string :=
  let i :=
    match last_index f 0 (string_rev s) (String.length s) with
    | Some i =>
      match String.get i s with
      | Some c =>
        if utf8.RuneSelf <=? code c
        then (i + (utf8.DecodeRuneInString (string_drop i s)).2)%nat
        else S i
      | None => S i
      end
    | None => 0%nat
    end in
  substring 0 i s.

Definition TrimFunc (s : string) (f : N → bool) : string :=
  TrimRightFunc (TrimLeftFunc s f) f.

Definition TrimSpace (s : string) : string := TrimFunc s IsSpace.

(** [Trim(s, cutset)] for a cutset of one character below [RuneSelf]. *)
Definition Trim (s : string) (cut : ascii) : string :=
  match s with
  | EmptyString => s
  | String _ _ => TrimFunc s (λ r, r =? code cut)
  end.

End gostrings.

(** ** tplink_gateway.go *)

Definition increment : N := 4294967295.

(** An [error], as the call that made it: the format of [fmt.Errorf] with
    its argument, or the error of a library by its text. *)
Inductive goerror :=
| Foreign (text : string)
| Errorf (format : string)
| Errorf_int (format : string) (n : Z)
| Errorf_string (format : string) (s : string)
| Errorf_error (format : string) (err : goerror).

Record request := {
  URL : string;
  BasicAuth : string * string;
  Referer : string
}.

(** A response: its status code, and what [io.Copy] gets from its body. *)
Record response := {
  StatusCode : Z;
  Body : string;
  CopyError : option goerror
}.

(** What the plugin asks of its surroundings: [http.NewRequest] (its error
    for a URL), [http.DefaultClient.Do], [url.Parse] (the [Host] of the
    result), [net.LookupHost] and [time.ParseDuration]. *)
Record Environment := {
  NewRequest : string → option goerror;
  Do : request → goerror + response;
  url_Parse : string → goerror + string;
  LookupHost : string → goerror + list string;
  ParseDuration : string → goerror + N
}.

Record TPLink_Gateway := {
  Address : string;
  Username : string;
  Password : string;
  Debug : bool;
  CacheFile : string;
  DumpInterval : string;
  ip : string;
  cache : overflowCache
}.

(** One call of [Accumulator.AddFields]. *)
Record point := {
  measurement : string;
  fields : gmap string N;
  tags : gmap string string
}.

Definition newline : string := String "010" EmptyString.

(** [int]: 64 bits, two's complement *)
Definition wrap_int (z : Z) : Z :=
  ((z + 9223372036854775808) mod 18446744073709551616 - 9223372036854775808)%Z.

Definition len {A : Type} (l : list A) : Z := Z.of_nat (length l).

(** [l[i]]; [None] is the panic of an index out of range. *)
Definition index {A : Type} (l : list A) (i : Z) : option A :=
  if (i <? 0)%Z then None else l !! Z.to_nat i.

(** [s[lo:hi]]; [None] is the panic of bounds out of range. *)
Definition slice (s : string) (lo hi : Z) : option string :=
  if (0 <=? lo)%Z && (lo <=? hi)%Z && (hi <=? Z.of_nat (String.length s))%Z
  then Some (substring (Z.to_nat lo) (Z.to_nat (hi - lo)) s)
  else None.

Definition fetch (g : TPLink_Gateway) (env : Environment) (resource : string)
  : string * option goerror :=
  let url := Address g +:+ resource in
  match NewRequest env url with
  | Some err => (EmptyString, Some (Errorf_error "error building request: %s" err))
  | None =>
    match Do env {| URL := url; BasicAuth := (Username g, Password g);
                    Referer := "http://" +:+ ip g |} with
    | inl err => (EmptyString, Some (Errorf_error "error requesting: %s" err))
    | inr response =>
      match CopyError response with
      | Some err =>
        (EmptyString,
         Some (Errorf_error "error reading data from the gateway: %s" err))
      | None =>
        if negb (Z.quot (StatusCode response) 100 =? 2)%Z
        then (EmptyString,
              Some (Errorf_int "gateway returned %d" (StatusCode response)))
        else (Body response, None)
      end
    end
  end.

(** [None] is the panic of the slice expression of line 284. *)
Definition findJSArray (content name : string)
  : option (list string * option goerror) :=
  let start := "var " +:+ name +:+ " = new Array(" +:+ newline in
  match gostrings.Index content start with
  | None => Some ([content], Some (Errorf (name +:+ " not found")))
  | Some begin =>
    let end_ :=
      match gostrings.Index (string_drop begin content) ");" with
      | Some e => Z.of_nat e
      | None => (-1)%Z
      end in
    content ← slice content (Z.of_nat begin + Z.of_nat (String.length start))
                    (Z.of_nat begin + end_);
    let content := gostrings.Replace content newline EmptyString in
    let content := gostrings.TrimSpace content in
    Some (gostrings.Split content ",", None)
  end.

Definition stringSliceToUint64Slice (l : list string) : list N :=
  (λ v, (atoi.ParseUint v).1) <$> l.

Definition with_cache (g : TPLink_Gateway) (c : overflowCache) : TPLink_Gateway :=
  {| Address := Address g; Username := Username g; Password := Password g;
     Debug := Debug g; CacheFile := CacheFile g;
     DumpInterval := DumpInterval g; ip := ip g; cache := c |}.

Definition with_ip (g : TPLink_Gateway) (a : string) : TPLink_Gateway :=
  {| Address := Address g; Username := Username g; Password := Password g;
     Debug := Debug g; CacheFile := CacheFile g;
     DumpInterval := DumpInterval g; ip := a; cache := cache g |}.

(** What a collector leaves: its error, the cache, the file system and the
    points added so far.  [None] is a panic. *)
Definition collected : Type :=
  option (option goerror * overflowCache * FileSystem * list point).

Definition status (g : TPLink_Gateway) (env : Environment) (fs : FileSystem)
  (acc : list point) : collected :=
  let c := cache g in
  let fail err := Some (Some (Errorf_error "(status) %s" err), c, fs, acc) in
  match fetch g env "/userRpm/StatusRpm.htm" with
  | (_, Some err) => fail err
  | (content, None) =>
    r ← findJSArray content "statusPara";
    match r with
    | (_, Some err) => fail err
    | (statusPara, None) =>
      if (len statusPara <? 5)%Z
      then Some (Some (Errorf_int "(status) unexpected statusPara size (%d)"
                                  (len statusPara)), c, fs, acc)
      else
        s4 ← index statusPara 4;
        let uptime := (atoi.ParseUint s4).1 in
        '(_, overflown, c, fs) ← checkOverflow c fs "status" "uptime" uptime 0;
        let c := if (overflown : bool) then init c else c in
        let fs := if overflown then (dump c fs).2 else fs in
        r ← findJSArray content "statistList";
        match r with
        | (_, Some err) =>
          Some (Some (Errorf_error "(status) %s" err), c, fs, acc)
        | (statistList, None) =>
          s1 ← index statusPara 1;
          if negb (String.eqb s1 "1")
          then Some (Some (Errorf "(status) multiple WANs are not supported"),
                     c, fs, acc)
          else if (len statistList <? 4)%Z
          then Some (Some (Errorf_int
                             "(status) unexpected statistList size (%d)"
                             (len statistList)), c, fs, acc)
          else
            let values := stringSliceToUint64Slice statistList in
            let tags : gmap string string :=
              <["wan" := "1"]> (<["page" := "status"]> ∅) in
            v ← index values 0;
            '(received_bytes, c, fs) ←
              get c fs "status" "received_bytes" v increment;
            v ← index values 2;
            '(received_packets, c, fs) ←
              get c fs "status" "received_packets" v increment;
            v ← index values 1;
            '(sent_bytes, c, fs) ← get c fs "status" "sent_bytes" v increment;
            v ← index values 3;
            '(sent_packets, c, fs) ←
              get c fs "status" "sent_packets" v increment;
            let fields : gmap string N :=
              <["sent_packets" := sent_packets]>
                (<["sent_bytes" := sent_bytes]>
                   (<["received_packets" := received_packets]>
                      (<["received_bytes" := received_bytes]> ∅))) in
            Some (None, c, fs,
                  acc ++ [{| measurement := "tplink_gateway";
                             fields := fields; tags := tags |}])
        end
    end
  end.

(** The body of the loop of [systemStatistic] for row [i]: the cache and
    the file system it leaves, and the point it adds. *)
Definition statistic_row (i listFactor : Z) (statList : list string)
  (c : overflowCache) (fs : FileSystem)
  : option (overflowCache * FileSystem * point) :=
  let row := wrap_int (i * listFactor) in
  s ← index statList (wrap_int (row + 2));
  let mac := gostrings.Trim s dquote in
  s ← index statList (wrap_int (row + 1));
  let tags : gmap string string :=
    <["mac" := mac]>
      (<["ip" := gostrings.Trim s dquote]>
         (<["page" := "system_statistic"]> ∅)) in
  let values := stringSliceToUint64Slice statList in
  v ← index values (wrap_int (row + 3));
  '(total_packets, c, fs) ←
    get c fs ("system_statistic_" +:+ mac) "total_packets" v increment;
  v ← index values (wrap_int (row + 4));
  '(total_bytes, c, fs) ←
    get c fs ("system_statistic_" +:+ mac) "total_bytes" v increment;
  packets ← index values (wrap_int (row + 5));
  bytes ← index values (wrap_int (row + 6));
  icmp_tx ← index values (wrap_int (row + 7));
  icmp_tx_max ← index values (wrap_int (row + 8));
  udp_tx ← index values (wrap_int (row + 9));
  udp_tx_max ← index values (wrap_int (row + 10));
  tcp_syn_tx ← index values (wrap_int (row + 11));
  tcp_syn_tx_max ← index values (wrap_int (row + 12));
  let fields : gmap string N :=
    <["tcp_syn_tx_max" := tcp_syn_tx_max]>
      (<["tcp_syn_tx" := tcp_syn_tx]>
         (<["udp_tx_max" := udp_tx_max]>
            (<["udp_tx" := udp_tx]>
               (<["icmp_tx_max" := icmp_tx_max]>
                  (<["icmp_tx" := icmp_tx]>
                     (<["bytes" := bytes]>
                        (<["packets" := packets]>
                           (<["total_bytes" := total_bytes]>
                              (<["total_packets" := total_packets]>
                                 ∅))))))))) in
  Some (c, fs, {| measurement := "tplink_gateway";
                  fields := fields; tags := tags |}).

(** The loop of [systemStatistic]: [n] rows from row [i] on. *)
Fixpoint rows (n : nat) (i listFactor : Z) (statList : list string)
  (c : overflowCache) (fs : FileSystem) (acc : list point)
  : option (overflowCache * FileSystem * list point) :=
  match n with
  | O => Some (c, fs, acc)
  | S n =>
    '(c, fs, p) ← statistic_row i listFactor statList c fs;
    rows n (i + 1) listFactor statList c fs (acc ++ [p])
  end.

Definition systemStatistic (g : TPLink_Gateway) (env : Environment)
  (fs : FileSystem) (acc : list point) : collected :=
  let c := cache g in
  let fail err :=
    Some (Some (Errorf_error "(systemStatistic) %s" err), c, fs, acc) in
  match fetch g env "/userRpm/SystemStatisticRpm.htm?Num_per_page=100" with
  | (_, Some err) => fail err
  | (content, None) =>
    r ← findJSArray content "StatRulePara";
    match r with
    | (_, Some err) => fail err
    | (statRulePara, None) =>
      if (len statRulePara <? 5)%Z
      then Some (Some (Errorf_int
                         "(systemStatistic) unexpected statRulePara size (%d)"
                         (len statRulePara)), c, fs, acc)
      else
        r ← findJSArray content "statList";
        match r with
        | (_, Some err) => fail err
        | (statList, None) =>
          s ← index statRulePara 4;
          let listSize := (atoi.Atoi s).1 in
          s ← index statRulePara 5;
          let listFactor := (atoi.Atoi s).1 in
          '(c, fs, acc) ←
            rows (Z.to_nat listSize) 0 listFactor statList c fs acc;
          Some (None, c, fs, acc)
        end
    end
  end.

(** [Gather] also leaves the gateway with its address looked up. *)
Definition Gather (g : TPLink_Gateway) (env : Environment) (fs : FileSystem)
  (acc : list point)
  : option (option goerror * TPLink_Gateway * FileSystem * list point) :=
  let looked_up : goerror + TPLink_Gateway :=
    if String.eqb (ip g) EmptyString then
      match url_Parse env (Address g) with
      | inl err => inl err
      | inr host =>
        match LookupHost env host with
        | inl err => inl err
        | inr [] => inl (Errorf_string "no addresses found for %s" host)
        | inr (a :: _) => inr (with_ip g a)
        end
      end
    else inr g in
  match looked_up with
  | inl err => Some (Some err, g, fs, acc)
  | inr g =>
    let set_up : goerror + TPLink_Gateway :=
      if negb (String.eqb (CacheFile g) EmptyString) then
        match ParseDuration env (DumpInterval g) with
        | inl err => inl err
        | inr cachingInterval =>
          inr (with_cache g (setup (cache g) fs (CacheFile g) cachingInterval))
        end
      else inr g in
    match set_up with
    | inl err => Some (Some err, g, fs, acc)
    | inr g =>
      '(err, c, fs, acc) ← status g env fs acc;
      match err with
      | Some err => Some (Some err, with_cache g c, fs, acc)
      | None =>
        '(err, c, fs, acc) ← systemStatistic (with_cache g c) env fs acc;
        Some (err, with_cache g c, fs, acc)
      end
    end
  end.

(** The gateway that [init] registers. *)
Definition new_gateway : TPLink_Gateway :=
  {| Address := "http://192.168.0.1"; Username := "admin";
     Password := "admin"; Debug := false; CacheFile := EmptyString;
     DumpInterval := EmptyString; ip := EmptyString; cache := fresh |}.

(** ** Auxiliary definitions for the statements and their proofs *)

Fixpoint string_forallb (f : ascii → bool) (s : string) : bool :=
  match s with
  | EmptyString => true
  | String c r => f c && string_forallb f r
  end.

Definition high (s : string) : bool := string_forallb (λ c, 128 <=? code c) s.

Ltac nlia := zify; Z.to_euclidean_division_equations; lia.

(** The text the encoder writes for one byte below [RuneSelf]. *)
Definition ascii_piece (c : ascii) : string :=
  if json.htmlSafe (code c) then String c EmptyString else json.escape_byte c.

(** The text the encoder writes for a well-formed sequence of more than one
    byte that decodes to [rn]. *)
Definition rune_piece (rn : N) (bytes : string) : string :=
  if (rn =? 8232) || (rn =? 8233)
  then "\u202" +:+ String (json.hex_digit (N.land rn 15)) EmptyString
  else bytes.

Definition is_delim (c : ascii) : Prop := c = ","%char ∨ c = "}"%char.

Fixpoint member_tokens (first : bool) (l : list (string * N))
  : list json.token :=
  match l with
  | [] => []
  | (k, v) :: r =>
    (if first then [] else [json.TComma]) ++
    json.TString (json.escape true 0 k) :: json.TColon ::
    json.TNumber (strconv.FormatUint v) :: member_tokens false r
  end.

Definition number_member (kv : string * N) : string * json.value :=
  (kv.1, json.Number (strconv.FormatUint kv.2)).

Definition valid_keys (l : list (string * N)) : Prop :=
  Forall (λ kv, utf8.ValidString kv.1 = true) l.

(** The value of the last pair of [kvs] with key [k]. *)
Fixpoint file_lookup (k : string) (kvs : list (string * N)) : option N :=
  match kvs with
  | [] => None
  | (k', v) :: r =>
    match file_lookup k r with
    | Some x => Some x
    | None => if decide (k' = k) then Some v else None
    end
  end.

Definition store_all (kvs : list (string * N)) (g : gmap string N)
  : gmap string N :=
  foldl (λ acc kv, <[kv.1 := kv.2]> acc) g kvs.

(** JSON text written with apostrophes in place of double quotes. *)
Fixpoint json_text (s : string) : string :=
  match s with
  | EmptyString => EmptyString
  | String c r => String (if Ascii.eqb c "'" then dquote else c) (json_text r)
  end.

(** A member whose value is a number that fits [uint64]. *)
Definition flat_member (m : string * json.value) : option (string * N) :=
  match m.2 with
  | json.Number lit => pair m.1 <$> strconv.ParseUint lit
  | _ => None
  end.

Fixpoint flat_members (ms : list (string * json.value))
  : option (list (string * N)) :=
  match ms with
  | [] => Some []
  | m :: r =>
    match flat_member m, flat_members r with
    | Some kv, Some kvs => Some (kv :: kvs)
    | _, _ => None
    end
  end.

(** The pairs of a file whose content is a JSON object of [uint64]
    numbers, in the order of the file. *)
Definition flat_table (data : string) : option (list (string * N)) :=
  match json.decode data with
  | Some (json.Object ms) => flat_members ms
  | _ => None
  end.

Definition table_ok (g : gmap string N) : bool :=
  forallb (λ kv, utf8.ValidString kv.1 && (kv.2 <? two64)) (map_to_list g).

Definition with_baseValues (c : overflowCache) (m : option (gmap string N))
  : overflowCache :=
  {| filename := filename c; values := values c; baseValues := m |}.

Definition sample_cache : overflowCache :=
  {| filename := "/etc/telegraf/tpg_cache";
     values := Some ∅;
     baseValues :=
       Some {[ "status_uptime" := 4294967296;
               "system_statistic_aa:bb:cc:dd:ee:ff_total_bytes" := 0 ]} |}.

Definition bad_key : string := "status_" +:+ String (byte 255) EmptyString.

Definition bad_key_cache : overflowCache :=
  {| filename := "tpg_cache"; values := Some ∅;
     baseValues := Some {[ bad_key := 1 ]} |}.

Definition table_file (content : string) : FileSystem :=
  {| files := {[ "tpg_cache" := content ]}; unreadable := ∅; unwritable := ∅ |}.

Definition uptime_cache : overflowCache :=
  {| filename := "tpg_cache"; values := Some ∅;
     baseValues := Some {[ "status_uptime" := 7 ]} |}.

Definition tracking_cache : overflowCache :=
  {| filename := "tpg_cache";
     values := Some {[ "status_uptime" := 9 ]};
     baseValues := Some {[ "status_uptime" := 7 ]} |}.

Ltac lia64 := unfold two64, MaxUint64 in *; lia.

Definition with_values (c : overflowCache) (m : option (gmap string N))
  : overflowCache :=
  {| filename := filename c; values := m; baseValues := baseValues c |}.

Definition with_filename (c : overflowCache) (name : string) : overflowCache :=
  {| filename := name; values := values c; baseValues := baseValues c |}.

(** What a call returns and the cache it leaves, without the file system. *)
Definition in_memory (r : option (N * bool * overflowCache * FileSystem))
  : option (N * bool * overflowCache) :=
  (λ x, x.1) <$> r.

(** The number that a string of decimal digits denotes, after [n]. *)
Fixpoint decimal (n : N) (s : string) : N :=
  match s with
  | EmptyString => n
  | String d r => decimal (n * 10 + (code d - 48)) r
  end.

(** [sep] occurs in [s]. *)
Definition occurs (sep s : string) : Prop :=
  ∃ pre post, s = pre +:+ sep +:+ post.

(** The items with [sep] between them. *)
Fixpoint join (sep : string) (l : list string) : string :=
  match l with
  | [] => EmptyString
  | x :: r =>
    match r with
    | [] => x
    | _ :: _ => x +:+ sep +:+ join sep r
    end
  end.

(** [s] without the bytes [c]. *)
Fixpoint without (c : ascii) (s : string) : string :=
  match s with
  | EmptyString => EmptyString
  | String x r => if Ascii.eqb x c then without c r else String x (without c r)
  end.

(** White space below [RuneSelf]. *)
Definition blank (c : ascii) : bool :=
  (code c <? utf8.RuneSelf) && gostrings.IsSpace (code c).

(** A byte below [RuneSelf] that is no white space, comma or closing
    parenthesis. *)
Definition plain (c : ascii) : bool :=
  (code c <? utf8.RuneSelf) && negb (gostrings.IsSpace (code c))
  && negb (Ascii.eqb c ",") && negb (Ascii.eqb c ")").

Definition opening (name : string) : string :=
  "var " +:+ name +:+ " = new Array(" +:+ newline.

(** A byte below [RuneSelf] that is no white space. *)
Definition solid (c : ascii) : bool :=
  (code c <? utf8.RuneSelf) && negb (gostrings.IsSpace (code c)).

(** Pages as the gateway serves them, and surroundings that serve them. *)
Definition status_head : string :=
  "<SCRIPT>" +:+ newline +:+ "var statusPara = new Array(" +:+ newline
  +:+ "1,1,0,21600,120,0,70," +:+ newline +:+ "0,0 );" +:+ newline
  +:+ "</SCRIPT>" +:+ newline +:+ "<SCRIPT>" +:+ newline.

Definition statist_body : string :=
  "1000,2000,30,40," +:+ newline +:+ "0,0 ".

Definition status_page : string :=
  status_head +:+ opening "statistList" +:+ statist_body +:+ ");"
  +:+ newline +:+ "</SCRIPT>".

Definition statistic_page (parameters : string) : string :=
  "<SCRIPT>" +:+ newline +:+ "var StatRulePara = new Array(" +:+ newline
  +:+ parameters +:+ newline +:+ ");" +:+ newline
  +:+ "var statList = new Array(" +:+ newline
  +:+ "1,'192.168.0.100','00-11-22-33-44-55',3,4,5,6,7,8,9,10,11,12,"
  +:+ newline
  +:+ "2,'192.168.0.101','00-11-22-33-44-66',13,14,15,16,17,18,19,20,21,22,"
  +:+ newline +:+ "0,0 );" +:+ newline +:+ "</SCRIPT>".

Definition serving_with (code : Z) (status_body statistic_body : string)
  : Environment :=
  {| NewRequest := λ _, None;
     Do := λ r,
       inr {| StatusCode := code;
              Body := if String.eqb (URL r)
                           "http://192.168.0.1/userRpm/StatusRpm.htm"
                      then status_body else statistic_body;
              CopyError := None |};
     url_Parse := λ _, inr "192.168.0.1";
     LookupHost := λ host, inr [host];
     ParseDuration := λ s,
       if String.eqb s "1m" then inr 60000000000
       else inl (Foreign ("time: invalid duration " +:+ s)) |}.

Definition serving : string → string → Environment := serving_with 200.

(** A gateway that has seen an uptime of 500 seconds and one wrap of the
    bytes sent. *)
Definition running_gateway : TPLink_Gateway :=
  with_cache new_gateway
    {| filename := "tpg_cache";
       values := Some {[ "status_uptime" := 500 ]};
       baseValues := Some {[ "status_sent_bytes" := 4294967295 ]} |}.

(** A gateway set up with a cache file and no dump interval. *)
Definition cached_gateway : TPLink_Gateway :=
  {| Address := "http://192.168.0.1"; Username := "admin";
     Password := "admin"; Debug := false;
     CacheFile := "/etc/telegraf/tpg_cache"; DumpInterval := EmptyString;
     ip := EmptyString; cache := fresh |}.

(** * Properties of the library model *)

(** ** Bytes and bit operations *)

Lemma code_lt c : code c < 256.
Proof. apply N_ascii_bounded. Qed.

Lemma byte_code c : byte (code c) = c.
Proof.
  unfold byte, code. rewrite N.mod_small by apply N_ascii_bounded.
  apply ascii_N_embedding.
Qed.

Lemma code_inj c d : code c = code d → c = d.
Proof. intros H. rewrite <- (byte_code c), <- (byte_code d). by rewrite H. Qed.

Lemma land_low Y X k : Y mod 2 ^ k = 0 → X < 2 ^ k → N.land Y X = 0.
Proof.
  intros HY HX. apply N.bits_inj_0. intros m. rewrite N.land_spec.
  destruct (N.lt_ge_cases m k) as [Hm|Hm].
  - rewrite <- (N.mod_pow2_bits_low Y k m Hm), HY, N.bits_0. reflexivity.
  - destruct (N.eq_dec X 0) as [->|Hne].
    + rewrite N.bits_0. apply Bool.andb_false_r.
    + rewrite (N.bits_above_log2 X m), Bool.andb_false_r; [reflexivity|].
      apply N.lt_le_trans with k; [|assumption].
      apply N.log2_lt_pow2; lia.
Qed.

Lemma lor_add Y X k : Y mod 2 ^ k = 0 → X < 2 ^ k → N.lor Y X = Y + X.
Proof.
  intros HY HX. rewrite <- N.lxor_lor by (by apply (land_low _ _ k)).
  symmetry. apply N.add_nocarry_lxor. by apply (land_low _ _ k).
Qed.

(** ** Well-formed UTF-8 sequences *)

Lemma rune2_value s0 s1 :
  194 ≤ s0 ≤ 223 → 128 ≤ s1 ≤ 191 →
  N.lor (N.shiftl (N.land s0 31) 6) (N.land s1 63)
  = (s0 - 192) * 64 + (s1 - 128).
Proof.
  intros H0 H1. change 31 with (N.ones 5). change 63 with (N.ones 6).
  rewrite !N.land_ones, N.shiftl_mul_pow2.
  rewrite (lor_add _ _ 6); change (2 ^ 6) with 64; change (2 ^ 5) with 32;
    nlia.
Qed.

Lemma rune3_value s0 s1 s2 :
  224 ≤ s0 ≤ 239 → 128 ≤ s1 ≤ 191 → 128 ≤ s2 ≤ 191 →
  N.lor (N.lor (N.shiftl (N.land s0 15) 12) (N.shiftl (N.land s1 63) 6))
        (N.land s2 63)
  = (s0 - 224) * 4096 + (s1 - 128) * 64 + (s2 - 128).
Proof.
  intros H0 H1 H2. change 15 with (N.ones 4). change 63 with (N.ones 6).
  rewrite !N.land_ones, !N.shiftl_mul_pow2.
  change (2 ^ 6) with 64; change (2 ^ 4) with 16; change (2 ^ 12) with 4096.
  rewrite (lor_add (_ * 4096) _ 12); change (2 ^ 12) with 4096; [|nlia..].
  rewrite (lor_add _ _ 6); change (2 ^ 6) with 64; nlia.
Qed.

Lemma rune4_value s0 s1 s2 s3 :
  240 ≤ s0 ≤ 247 → 128 ≤ s1 ≤ 191 → 128 ≤ s2 ≤ 191 → 128 ≤ s3 ≤ 191 →
  N.lor (N.lor (N.lor (N.shiftl (N.land s0 7) 18) (N.shiftl (N.land s1 63) 12))
               (N.shiftl (N.land s2 63) 6)) (N.land s3 63)
  = (s0 - 240) * 262144 + (s1 - 128) * 4096 + (s2 - 128) * 64 + (s3 - 128).
Proof.
  intros H0 H1 H2 H3. change 7 with (N.ones 3). change 63 with (N.ones 6).
  rewrite !N.land_ones, !N.shiftl_mul_pow2.
  change (2 ^ 6) with 64; change (2 ^ 3) with 8; change (2 ^ 12) with 4096;
    change (2 ^ 18) with 262144.
  rewrite (lor_add (_ * 262144) _ 18); change (2 ^ 18) with 262144; [|nlia..].
  rewrite (lor_add _ (_ * 64) 12); change (2 ^ 12) with 4096; [|nlia..].
  rewrite (lor_add _ _ 6); change (2 ^ 6) with 64; nlia.
Qed.

Lemma encode_rune2 a b :
  2 ≤ a ≤ 31 → b < 64 →
  utf8.EncodeRune (a * 64 + b)
  = String (byte (192 + a)) (String (byte (128 + b)) EmptyString).
Proof.
  intros Ha Hb. unfold utf8.EncodeRune.
  replace (a * 64 + b <=? 127) with false by (symmetry; apply N.leb_gt; lia).
  replace (a * 64 + b <=? 2047) with true by (symmetry; apply N.leb_le; lia).
  change 63 with (N.ones 6). rewrite N.land_ones, N.shiftr_div_pow2.
  change (2 ^ 6) with 64.
  rewrite (lor_add 192 _ 6), (lor_add 128 _ 6); change (2 ^ 6) with 64;
    try nlia; [|reflexivity..].
  do 2 f_equal; f_equal; nlia.
Qed.

Lemma encode_rune3 a b c :
  a ≤ 15 → b < 64 → c < 64 → (a = 0 → 32 ≤ b) → (a = 13 → b < 32) →
  utf8.EncodeRune (a * 4096 + b * 64 + c)
  = String (byte (224 + a))
      (String (byte (128 + b)) (String (byte (128 + c)) EmptyString)).
Proof.
  intros Ha Hb Hc H0 H13. unfold utf8.EncodeRune, utf8.MaxRune.
  set (r := a * 4096 + b * 64 + c).
  replace (r <=? 127) with false by (symmetry; apply N.leb_gt; lia).
  replace (r <=? 2047) with false by (symmetry; apply N.leb_gt; lia).
  replace (1114111 <? r) with false by (symmetry; apply N.ltb_ge; lia).
  replace ((55296 <=? r) && (r <=? 57343)) with false.
  2:{ symmetry. apply andb_false_iff.
      destruct (N.eq_dec a 13) as [->|].
      - left. apply N.leb_gt. lia.
      - destruct (N.lt_ge_cases a 13).
        + left. apply N.leb_gt. lia.
        + right. apply N.leb_gt. lia. }
  replace (r <=? 65535) with true by (symmetry; apply N.leb_le; lia).
  cbn [orb]. unfold utf8.encode3.
  change 63 with (N.ones 6). rewrite !N.land_ones, !N.shiftr_div_pow2.
  change (2 ^ 6) with 64. change (2 ^ 12) with 4096.
  rewrite (lor_add 224 _ 4), !(lor_add 128 _ 6); change (2 ^ 6) with 64;
    change (2 ^ 4) with 16; try nlia; [|reflexivity..].
  subst r. do 3 f_equal; f_equal; nlia.
Qed.

Lemma encode_rune4 a b c d :
  a ≤ 4 → b < 64 → c < 64 → d < 64 → (a = 0 → 16 ≤ b) → (a = 4 → b < 16) →
  utf8.EncodeRune (a * 262144 + b * 4096 + c * 64 + d)
  = String (byte (240 + a))
      (String (byte (128 + b))
         (String (byte (128 + c)) (String (byte (128 + d)) EmptyString))).
Proof.
  intros Ha Hb Hc Hd H0 H4. unfold utf8.EncodeRune, utf8.MaxRune.
  set (r := a * 262144 + b * 4096 + c * 64 + d).
  replace (r <=? 127) with false by (symmetry; apply N.leb_gt; lia).
  replace (r <=? 2047) with false by (symmetry; apply N.leb_gt; lia).
  replace (1114111 <? r) with false by (symmetry; apply N.ltb_ge; lia).
  replace (55296 <=? r) with true by (symmetry; apply N.leb_le; lia).
  replace (r <=? 57343) with false by (symmetry; apply N.leb_gt; lia).
  replace (r <=? 65535) with false by (symmetry; apply N.leb_gt; lia).
  cbn [orb andb].
  change 63 with (N.ones 6). rewrite !N.land_ones, !N.shiftr_div_pow2.
  change (2 ^ 6) with 64. change (2 ^ 12) with 4096.
  change (2 ^ 18) with 262144.
  rewrite (lor_add 240 _ 4), !(lor_add 128 _ 6); change (2 ^ 6) with 64;
    change (2 ^ 4) with 16; try nlia; [|reflexivity..].
  subst r. do 4 f_equal; f_equal; nlia.
Qed.

Lemma lead_cases s0 sz lo hi :
  utf8.lead s0 = Some (sz, lo, hi) →
  128 ≤ lo ∧ hi ≤ 191 ∧
  ((sz = 2%nat ∧ 194 ≤ s0 ≤ 223) ∨
   (sz = 3%nat ∧ 224 ≤ s0 ≤ 239 ∧ (s0 = 224 → 160 ≤ lo) ∧ (s0 = 237 → hi ≤ 159)) ∨
   (sz = 4%nat ∧ 240 ≤ s0 ≤ 244 ∧ (s0 = 240 → 144 ≤ lo) ∧ (s0 = 244 → hi ≤ 143))).
Proof.
  unfold utf8.lead.
  repeat match goal with
  | |- context [if ?b then _ else _] => destruct b eqn:?
  end; intros [= <- <- <-];
  repeat match goal with
  | H : (_ && _)%bool = true |- _ => apply andb_prop in H as [? ?]
  | H : (_ && _)%bool = false |- _ => apply andb_false_iff in H
  | H : (_ <=? _) = true |- _ => apply N.leb_le in H
  | H : (_ <=? _) = false |- _ => apply N.leb_gt in H
  | H : (_ =? _) = true |- _ => apply N.eqb_eq in H
  | H : (_ =? _) = false |- _ => apply N.eqb_neq in H
  end; lia.
Qed.

(** ** Strings *)

Lemma sapp_cons c s t : String c s +:+ t = String c (s +:+ t).
Proof. reflexivity. Qed.

Lemma sapp_nil t : EmptyString +:+ t = t.
Proof. reflexivity. Qed.

Ltac norm_app := rewrite ?sapp_cons, ?sapp_nil.

Lemma string_app_assoc (a b c : string) : (a +:+ b) +:+ c = a +:+ (b +:+ c).
Proof.
  induction a as [|x a IH]; [done|].
  change (String x ((a +:+ b) +:+ c) = String x (a +:+ (b +:+ c))).
  by rewrite IH.
Qed.

Lemma high_code c : (128 <=? code c) = true → 128 ≤ code c.
Proof. apply N.leb_le. Qed.

(** What [DecodeRuneInString] finds at a byte that is not ASCII: either an
    error of width one, or a sequence that [EncodeRune] gives back. *)
Lemma decode_cases c0 r rn size :
  128 ≤ code c0 →
  utf8.DecodeRuneInString (String c0 r) = (rn, size) →
  (rn = utf8.RuneError ∧ size = 1%nat) ∨
  ∃ p t, r = p +:+ t ∧ S (String.length p) = size ∧ p ≠ EmptyString
         ∧ high p = true ∧ utf8.EncodeRune rn = String c0 p
         ∧ ∀ t', utf8.DecodeRuneInString (String c0 (p +:+ t')) = (rn, size).
Proof.
  intros Hc0. unfold utf8.DecodeRuneInString at 1.
  replace (code c0 <? utf8.RuneSelf) with false
    by (symmetry; apply N.ltb_ge; exact Hc0).
  destruct (utf8.lead (code c0)) as [[[sz lo] hi]|] eqn:Hlead;
    [|intros [= <- <-]; by left].
  destruct (lead_cases _ _ _ _ Hlead) as (Hlo & Hhi & Hsz).
  destruct r as [|c1 r1]; [intros [= <- <-]; by left|].
  destruct ((code c1 <? lo) || (hi <? code c1)) eqn:H1;
    [intros [= <- <-]; by left|].
  apply orb_false_elim in H1 as [H1a H1b].
  apply N.ltb_ge in H1a. apply N.ltb_ge in H1b.
  destruct Hsz as [[-> H0]|[(-> & H0 & Hx & Hy)|(-> & H0 & Hx & Hy)]];
    cbn [Nat.leb].
  - intros [= <- <-]. right. exists (String c1 EmptyString), r1.
    split; [done|]. split; [done|]. split; [done|]. split.
    { cbn. rewrite andb_true_r. apply N.leb_le. lia. }
    split.
    + rewrite rune2_value by lia.
      rewrite encode_rune2 by lia.
      f_equal; [|f_equal]; rewrite <- byte_code; f_equal; lia.
    + intros t'. unfold utf8.DecodeRuneInString.
      replace (code c0 <? utf8.RuneSelf) with false
        by (symmetry; apply N.ltb_ge; exact Hc0).
      rewrite Hlead. norm_app.
      replace ((code c1 <? lo) || (hi <? code c1)) with false; [done|].
      symmetry. apply orb_false_intro; apply N.ltb_ge; lia.
  - destruct r1 as [|c2 r2]; [intros [= <- <-]; by left|].
    destruct (utf8.cont (code c2)) eqn:H2; cbn [negb];
      [|intros [= <- <-]; by left].
    apply andb_prop in H2 as [H2a H2b].
    apply N.leb_le in H2a. apply N.leb_le in H2b.
    intros [= <- <-]. right.
    exists (String c1 (String c2 EmptyString)), r2.
    split; [done|]. split; [done|]. split; [done|]. split.
    { cbn. rewrite andb_true_r. apply andb_true_intro.
      split; apply N.leb_le; lia. }
    split.
    + rewrite rune3_value by lia.
      rewrite encode_rune3 by lia.
      f_equal; [|f_equal; [|f_equal]]; rewrite <- byte_code; f_equal; lia.
    + intros t'. unfold utf8.DecodeRuneInString.
      replace (code c0 <? utf8.RuneSelf) with false
        by (symmetry; apply N.ltb_ge; exact Hc0).
      rewrite Hlead. norm_app. cbn [Nat.leb].
      replace ((code c1 <? lo) || (hi <? code c1)) with false
        by (symmetry; apply orb_false_intro; apply N.ltb_ge; lia).
      replace (utf8.cont (code c2)) with true; [done|].
      symmetry. apply andb_true_intro. split; apply N.leb_le; lia.
  - destruct r1 as [|c2 r2]; [intros [= <- <-]; by left|].
    destruct (utf8.cont (code c2)) eqn:H2; cbn [negb];
      [|intros [= <- <-]; by left].
    apply andb_prop in H2 as [H2a H2b].
    apply N.leb_le in H2a. apply N.leb_le in H2b.
    destruct r2 as [|c3 r3]; [intros [= <- <-]; by left|].
    destruct (utf8.cont (code c3)) eqn:H3; cbn [negb];
      [|intros [= <- <-]; by left].
    apply andb_prop in H3 as [H3a H3b].
    apply N.leb_le in H3a. apply N.leb_le in H3b.
    intros [= <- <-]. right.
    exists (String c1 (String c2 (String c3 EmptyString))), r3.
    split; [done|]. split; [done|]. split; [done|]. split.
    { cbn. rewrite andb_true_r. repeat (apply andb_true_intro; split);
        apply N.leb_le; lia. }
    split.
    + rewrite rune4_value by lia.
      rewrite encode_rune4 by lia.
      f_equal; [|f_equal; [|f_equal; [|f_equal]]];
        rewrite <- byte_code; f_equal; lia.
    + intros t'. unfold utf8.DecodeRuneInString.
      replace (code c0 <? utf8.RuneSelf) with false
        by (symmetry; apply N.ltb_ge; exact Hc0).
      rewrite Hlead. norm_app. cbn [Nat.leb].
      replace ((code c1 <? lo) || (hi <? code c1)) with false
        by (symmetry; apply orb_false_intro; apply N.ltb_ge; lia).
      replace (utf8.cont (code c2)) with true
        by (symmetry; apply andb_true_intro; split; apply N.leb_le; lia).
      replace (utf8.cont (code c3)) with true; [done|].
      symmetry. apply andb_true_intro. split; apply N.leb_le; lia.
Qed.

Lemma slength_app (a b : string) :
  String.length (a +:+ b) = (String.length a + String.length b)%nat.
Proof.
  induction a as [|x a IH]; [done|].
  norm_app. cbn [String.length]. by rewrite IH.
Qed.

Lemma valid_from_skip p : ∀ n t,
  String.length p = n → utf8.valid_from n (p +:+ t) = utf8.valid_from 0 t.
Proof.
  induction p as [|c p IH]; intros n t <-; [done|].
  norm_app. cbn [String.length utf8.valid_from]. by apply IH.
Qed.

Lemma escape_pending_0 keep s : json.escape keep 0 s = json.escape true 0 s.
Proof. by destruct s. Qed.

Lemma escape_keep p : ∀ n t,
  String.length p = n →
  json.escape true n (p +:+ t) = p +:+ json.escape true 0 t.
Proof.
  induction p as [|c p IH]; intros n t <-; [done|].
  norm_app. cbn [String.length json.escape]. f_equal. by apply IH.
Qed.

Lemma escape_drop p : ∀ n t,
  String.length p = n →
  json.escape false n (p +:+ t) = json.escape true 0 t.
Proof.
  induction p as [|c p IH]; intros n t <-.
  - norm_app. apply escape_pending_0.
  - norm_app. cbn [String.length json.escape]. by apply IH.
Qed.

Lemma unquote_skip p : ∀ n t,
  String.length p = n → json.unquote n (p +:+ t) = json.unquote 0 t.
Proof.
  induction p as [|c p IH]; intros n t <-; [done|].
  norm_app. cbn [String.length json.unquote]. by apply IH.
Qed.

Lemma valid_ind (P : string → Prop) :
  P EmptyString →
  (∀ c t, code c < 128 → utf8.ValidString t = true → P t → P (String c t)) →
  (∀ c p t rn,
     128 ≤ code c → p ≠ EmptyString → high p = true →
     utf8.EncodeRune rn = String c p →
     (∀ t', utf8.DecodeRuneInString (String c (p +:+ t'))
            = (rn, S (String.length p))) →
     utf8.ValidString t = true → P t → P (String c (p +:+ t))) →
  ∀ s, utf8.ValidString s = true → P s.
Proof.
  intros Hnil Hascii Hmulti s.
  remember (String.length s) as n eqn:Hn.
  revert s Hn. induction n as [n IH] using lt_wf_ind. intros s Hn Hvalid.
  destruct s as [|c r]; [exact Hnil|].
  unfold utf8.ValidString in Hvalid. cbn [utf8.valid_from] in Hvalid.
  destruct (utf8.DecodeRuneInString (String c r)) as [rn size] eqn:Hdec.
  destruct (N.lt_ge_cases (code c) 128) as [Hc|Hc].
  - unfold utf8.DecodeRuneInString in Hdec.
    replace (code c <? utf8.RuneSelf) with true in Hdec
      by (symmetry; apply N.ltb_lt; exact Hc).
    injection Hdec as <- <-.
    destruct ((code c =? utf8.RuneError) && (1 =? 1)%nat); [discriminate|].
    apply Hascii; [exact Hc | exact Hvalid |].
    apply (IH (String.length r)); [subst n; cbn; lia | reflexivity | exact Hvalid].
  - destruct (decode_cases _ _ _ _ Hc Hdec)
      as [[-> ->]|(p & t & -> & <- & Hne & Hhigh & Henc & Hall)].
    + discriminate.
    + destruct ((rn =? utf8.RuneError) && (S (String.length p) =? 1)%nat);
        [discriminate|].
      cbn [Nat.sub] in Hvalid. rewrite Nat.sub_0_r in Hvalid.
      rewrite valid_from_skip in Hvalid by reflexivity.
      apply (Hmulti c p t rn); try assumption.
      apply (IH (String.length t)); [|reflexivity|exact Hvalid].
      subst n. cbn [String.length]. rewrite slength_app. lia.
Qed.

Lemma escape_ascii c t :
  code c < 128 →
  json.escape true 0 (String c t) = ascii_piece c +:+ json.escape true 0 t.
Proof.
  intros Hc. cbn [json.escape]. unfold ascii_piece.
  replace (code c <? utf8.RuneSelf) with true
    by (symmetry; apply N.ltb_lt; exact Hc).
  by destruct (json.htmlSafe (code c)).
Qed.

Lemma escape_multi c p t rn :
  128 ≤ code c → p ≠ EmptyString →
  (∀ t', utf8.DecodeRuneInString (String c (p +:+ t'))
         = (rn, S (String.length p))) →
  json.escape true 0 (String c (p +:+ t))
  = rune_piece rn (String c p) +:+ json.escape true 0 t.
Proof.
  intros Hc Hne Hdec. cbn [json.escape]. unfold rune_piece.
  replace (code c <? utf8.RuneSelf) with false
    by (symmetry; apply N.ltb_ge; exact Hc).
  rewrite Hdec.
  replace (S (String.length p) =? 1)%nat with false
    by (by destruct p).
  rewrite andb_false_r.
  cbn [Nat.sub]. rewrite Nat.sub_0_r.
  destruct ((rn =? 8232) || (rn =? 8233)).
  - rewrite escape_drop by reflexivity. by rewrite string_app_assoc.
  - rewrite escape_keep by reflexivity. by norm_app.
Qed.

Lemma lex_high p : ∀ acc X,
  high p = true →
  json.lex (json.LString acc) (p +:+ X)
  = json.lex (json.LString (string_rev_app p acc)) X.
Proof.
  induction p as [|c p IH]; intros acc X Hp; [done|].
  cbn [high string_forallb] in Hp. apply andb_prop in Hp as [Hc Hp].
  apply N.leb_le in Hc. norm_app. cbn [json.lex string_rev_app].
  replace (Ascii.eqb c dquote) with false.
  2:{ symmetry. apply Ascii.eqb_neq. intros ->. vm_compute in Hc. by apply Hc. }
  replace (Ascii.eqb c backslash) with false.
  2:{ symmetry. apply Ascii.eqb_neq. intros ->. vm_compute in Hc. by apply Hc. }
  replace (code c <? 32) with false by (symmetry; apply N.ltb_ge; lia).
  by apply IH.
Qed.

Lemma lex_ascii_piece c acc X :
  code c < 128 →
  json.lex (json.LString acc) (ascii_piece c +:+ X)
  = json.lex (json.LString (string_rev_app (ascii_piece c) acc)) X.
Proof.
  intros Hc.
  destruct c as [[] [] [] [] [] [] [] []];
    first [ reflexivity | exfalso; vm_compute in Hc; discriminate ].
Qed.

Lemma unquote_ascii_piece c Y :
  code c < 128 →
  json.unquote 0 (ascii_piece c +:+ Y) = String c <$> json.unquote 0 Y.
Proof.
  intros Hc.
  destruct c as [[] [] [] [] [] [] [] []];
    first [ reflexivity | exfalso; vm_compute in Hc; discriminate ].
Qed.

Lemma lex_rune_piece rn c p acc X :
  128 ≤ code c → high p = true →
  json.lex (json.LString acc) (rune_piece rn (String c p) +:+ X)
  = json.lex (json.LString (string_rev_app (rune_piece rn (String c p)) acc)) X.
Proof.
  intros Hc Hp. unfold rune_piece.
  destruct (rn =? 8232) eqn:E1; [apply N.eqb_eq in E1 as ->; reflexivity|].
  destruct (rn =? 8233) eqn:E2; [apply N.eqb_eq in E2 as ->; reflexivity|].
  cbn [orb]. apply lex_high. cbn [high string_forallb].
  apply andb_true_intro. split; [by apply N.leb_le | exact Hp].
Qed.

Lemma unquote_rune_piece rn c p Y :
  128 ≤ code c →
  utf8.EncodeRune rn = String c p →
  (∀ t', utf8.DecodeRuneInString (String c (p +:+ t'))
         = (rn, S (String.length p))) →
  json.unquote 0 (rune_piece rn (String c p) +:+ Y)
  = String.append (String c p) <$> json.unquote 0 Y.
Proof.
  intros Hc Henc Hdec. unfold rune_piece.
  destruct (rn =? 8232) eqn:E1.
  { apply N.eqb_eq in E1 as ->. rewrite <- Henc. reflexivity. }
  destruct (rn =? 8233) eqn:E2.
  { apply N.eqb_eq in E2 as ->. rewrite <- Henc. reflexivity. }
  cbn [orb]. norm_app. cbn [json.unquote].
  replace (Ascii.eqb c backslash) with false.
  2:{ symmetry. apply Ascii.eqb_neq. intros ->. vm_compute in Hc. by apply Hc. }
  replace (Ascii.eqb c dquote) with false.
  2:{ symmetry. apply Ascii.eqb_neq. intros ->. vm_compute in Hc. by apply Hc. }
  replace (code c <? 32) with false by (symmetry; apply N.ltb_ge; lia).
  replace (code c <? utf8.RuneSelf) with false
    by (symmetry; apply N.ltb_ge; exact Hc).
  cbn [orb]. rewrite Hdec, Henc. cbn [Nat.sub]. rewrite Nat.sub_0_r.
  by rewrite unquote_skip.
Qed.

Lemma rev_app_app a : ∀ b acc,
  string_rev_app (a +:+ b) acc = string_rev_app b (string_rev_app a acc).
Proof.
  induction a as [|x a IH]; intros b acc; [done|].
  norm_app. cbn [string_rev_app]. apply IH.
Qed.

Lemma rev_rev_app a : ∀ acc,
  string_rev (string_rev_app a acc) = string_rev acc +:+ a.
Proof.
  unfold string_rev.
  assert (∀ a acc tl, string_rev_app (string_rev_app a acc) tl
                      = string_rev_app acc (a +:+ tl)) as Hgen.
  { clear. induction a as [|x a IH]; intros acc tl; [done|].
    cbn [string_rev_app]. rewrite IH. by norm_app. }
  assert (∀ acc tl, string_rev_app acc tl
                    = string_rev_app acc EmptyString +:+ tl) as Hsplit.
  { clear. induction acc as [|x acc IH]; intros tl; [done|].
    cbn [string_rev_app]. rewrite (IH (String x tl)), (IH (String x EmptyString)).
    by rewrite string_app_assoc. }
  intros acc. rewrite Hgen. rewrite Hsplit. f_equal.
  clear. induction a as [|x a IH]; [done|]. norm_app. by rewrite IH.
Qed.

(** The scanner passes over the escaped form of a well-formed string. *)
Lemma lex_escape s :
  utf8.ValidString s = true → ∀ acc X,
  json.lex (json.LString acc) (json.escape true 0 s +:+ X)
  = json.lex (json.LString (string_rev_app (json.escape true 0 s) acc)) X.
Proof.
  revert s. apply (valid_ind (λ s, ∀ acc X, _ = _)).
  - done.
  - intros c t Hc _ IH acc X. rewrite escape_ascii by exact Hc.
    rewrite string_app_assoc, lex_ascii_piece by exact Hc.
    by rewrite IH, rev_app_app.
  - intros c p t rn Hc Hne Hp Henc Hdec _ IH acc X.
    rewrite (escape_multi c p t rn) by assumption.
    rewrite string_app_assoc, lex_rune_piece by assumption.
    by rewrite IH, rev_app_app.
Qed.

(** Unquoting the escaped form of a well-formed string gives it back. *)
Lemma unquote_escape s :
  utf8.ValidString s = true → json.unquote 0 (json.escape true 0 s) = Some s.
Proof.
  revert s. apply valid_ind.
  - done.
  - intros c t Hc _ IH. rewrite escape_ascii by exact Hc.
    rewrite unquote_ascii_piece by exact Hc. by rewrite IH.
  - intros c p t rn Hc Hne Hp Henc Hdec _ IH.
    rewrite (escape_multi c p t rn) by assumption.
    rewrite unquote_rune_piece by assumption. by rewrite IH.
Qed.

Lemma lex_encode_string k X :
  utf8.ValidString k = true →
  json.lex json.LValue (json.encode_string k +:+ X)
  = cons (json.TString (json.escape true 0 k)) <$> json.lex json.LValue X.
Proof.
  intros Hk. unfold json.encode_string. norm_app.
  change (json.lex json.LValue (String dquote ?r))
    with (json.lex (json.LString EmptyString) r).
  rewrite string_app_assoc, lex_escape by exact Hk. norm_app.
  change (json.lex (json.LString ?acc) (String dquote ?r))
    with (cons (json.TString (string_rev acc)) <$> json.lex json.LValue r).
  by rewrite rev_rev_app.
Qed.

(** ** Numbers *)

Lemma sapp_nil_r (a : string) : a +:+ EmptyString = a.
Proof. induction a as [|x a IH]; [done|]. norm_app. by rewrite IH. Qed.

Lemma string_rev_cons x acc :
  string_rev (String x acc) = string_rev acc +:+ String x EmptyString.
Proof. apply (rev_rev_app (String x EmptyString) acc). Qed.

Lemma lex_number_end ns acc c X :
  is_delim c → json.num_final ns = true → json.num_step ns c = None →
  json.lex (json.LNum ns acc) (String c X)
  = cons (json.TNumber (string_rev acc)) <$> json.lex json.LValue (String c X).
Proof.
  intros Hc Hfin Hstep. cbn [json.lex]. rewrite Hstep, Hfin.
  by destruct Hc as [-> | ->].
Qed.

Lemma lex_digits d : ∀ acc c X,
  is_delim c →
  json.lex (json.LNum json.NInt acc) (NilEmpty.string_of_uint d +:+ String c X)
  = cons (json.TNumber (string_rev acc +:+ NilEmpty.string_of_uint d))
      <$> json.lex json.LValue (String c X).
Proof.
  induction d as [|d IH|d IH|d IH|d IH|d IH|d IH|d IH|d IH|d IH|d IH];
    intros acc c X Hc; cbn [NilEmpty.string_of_uint]; norm_app.
  1:{ rewrite sapp_nil_r. apply lex_number_end; [exact Hc|done|].
      by destruct Hc as [-> | ->]. }
  all: match goal with
       | |- json.lex (json.LNum json.NInt ?a) (String ?x ?r) = _ =>
         change (json.lex (json.LNum json.NInt a) (String x r))
           with (json.lex (json.LNum json.NInt (String x a)) r)
       end; rewrite IH by exact Hc;
    by rewrite string_rev_cons, string_app_assoc.
Qed.

Lemma to_uint_shape v :
  v ≠ 0 →
  match N.to_uint v with
  | Decimal.Nil | Decimal.D0 _ => False
  | _ => True
  end.
Proof.
  intros Hv.
  pose proof (DecimalN.Unsigned.to_of (N.to_uint v)) as Hnorm.
  rewrite DecimalN.Unsigned.of_to in Hnorm.
  destruct (N.to_uint v) as [|d| | | | | | | | |] eqn:E; try exact I.
  - by apply (DecimalFacts.unorm_nonnil Decimal.Nil).
  - rewrite DecimalFacts.unorm_D0 in Hnorm.
    assert (d = Decimal.Nil ∨ d ≠ Decimal.Nil) as [->|Hd]
      by (destruct d; [by left | right; discriminate..]).
    + apply Hv. rewrite <- (DecimalN.Unsigned.of_to v), E. reflexivity.
    + pose proof (DecimalFacts.nb_digits_unorm d Hd) as Hlen.
      rewrite <- Hnorm in Hlen. cbn in Hlen. lia.
Qed.

Lemma lex_FormatUint v c X :
  is_delim c →
  json.lex json.LValue (strconv.FormatUint v +:+ String c X)
  = cons (json.TNumber (strconv.FormatUint v))
      <$> json.lex json.LValue (String c X).
Proof.
  intros Hc. unfold strconv.FormatUint.
  destruct (N.eq_dec v 0) as [->|Hv].
  - cbn [N.to_uint NilEmpty.string_of_uint]. norm_app.
    change (json.lex json.LValue (String "0" ?r))
      with (json.lex (json.LNum json.NZero (String "0" EmptyString)) r).
    rewrite lex_number_end; [done|exact Hc|done|].
    by destruct Hc as [-> | ->].
  - pose proof (to_uint_shape v Hv) as Hshape.
    destruct (N.to_uint v) as [|d|d|d|d|d|d|d|d|d|d]; try done;
      cbn [NilEmpty.string_of_uint]; norm_app;
      match goal with
      | |- json.lex json.LValue (String ?x ?r) = _ =>
        change (json.lex json.LValue (String x r))
          with (json.lex (json.LNum json.NInt (String x EmptyString)) r)
      end;
      by rewrite lex_digits.
Qed.

Lemma ParseUint_FormatUint v :
  v < two64 → strconv.ParseUint (strconv.FormatUint v) = Some v.
Proof.
  intros Hv. unfold strconv.ParseUint, strconv.FormatUint.
  rewrite NilEmpty.usu, DecimalN.Unsigned.of_to.
  replace (v <? two64) with true by (symmetry; by apply N.ltb_lt).
  destruct (N.to_uint v) eqn:E; try done.
  destruct v; discriminate || (by apply DecimalPos.Unsigned.to_uint_nonnil in E).
Qed.

(** ** Objects *)

Lemma encode_members_delim l X :
  ∃ c Y, json.encode_members false l +:+ String "}" X = String c Y ∧ is_delim c.
Proof.
  destruct l as [|[k v] r].
  - exists "}"%char, X. split; [done | by right].
  - eexists ","%char, _. split; [|by left]. cbn [json.encode_members].
    by norm_app.
Qed.

Lemma lex_members l : ∀ first X,
  valid_keys l →
  json.lex json.LValue (json.encode_members first l +:+ String "}" X)
  = app (member_tokens first l)
      <$> json.lex json.LValue (String "}" X).
Proof.
  induction l as [|[k v] r IH]; intros first X Hl.
  - cbn [json.encode_members member_tokens]. norm_app.
    by destruct (json.lex _ _).
  - apply Forall_cons in Hl as [Hk Hr]. cbn [fst] in Hk.
    cbn [json.encode_members member_tokens].
    rewrite !string_app_assoc.
    assert (json.lex json.LValue
              (json.encode_string k +:+ ":" +:+ strconv.FormatUint v +:+
               json.encode_members false r +:+ String "}" X)
            = app (json.TString (json.escape true 0 k) :: json.TColon ::
                   json.TNumber (strconv.FormatUint v) :: member_tokens false r)
                <$> json.lex json.LValue (String "}" X)) as Hrest.
    { rewrite lex_encode_string by exact Hk. norm_app.
      change (json.lex json.LValue (String ":" ?r))
        with (cons json.TColon <$> json.lex json.LValue r).
      destruct (encode_members_delim r X) as (c & Y & HY & Hc).
      rewrite HY, lex_FormatUint by exact Hc. rewrite <- HY, IH by exact Hr.
      by destruct (json.lex _ _). }
    destruct first.
    + exact Hrest.
    + change (json.lex json.LValue ("," +:+ ?r))
        with (cons json.TComma <$> json.lex json.LValue r).
      rewrite Hrest.
      generalize (json.lex json.LValue (String "}" X)). by intros [l|].
Qed.

Lemma parse_member k v stack done ts :
  utf8.ValidString k = true →
  json.parse (json.FObject done None :: stack) (json.PKey false)
    (json.TString (json.escape true 0 k) :: json.TColon ::
     json.TNumber (strconv.FormatUint v) :: ts)
  = json.parse (json.FObject (number_member (k, v) :: done) None :: stack)
      json.PEnd ts.
Proof.
  intros Hk. cbn [json.parse]. rewrite unquote_escape by exact Hk. reflexivity.
Qed.

Lemma parse_members l : ∀ done,
  valid_keys l →
  json.parse [json.FObject done None] json.PEnd
    (member_tokens false l ++ [json.TEndObject])
  = Some (json.Object (rev done ++ map number_member l)).
Proof.
  induction l as [|[k v] r IH]; intros done Hl.
  - cbn. by rewrite app_nil_r.
  - apply Forall_cons in Hl as [Hk Hr]. cbn [fst] in Hk.
    cbn [member_tokens app].
    change (json.parse ?st json.PEnd (json.TComma :: ?ts))
      with (json.parse st (json.PKey false) ts).
    rewrite parse_member by exact Hk. rewrite IH by exact Hr.
    cbn [rev map]. by rewrite <- app_assoc.
Qed.

(** Decoding what the encoder writes for a table with well-formed keys
    gives the members of the table in the order written. *)
Lemma decode_encode_map g :
  valid_keys (json.sorted_entries g) →
  json.decode (json.encode_map (Some g))
  = Some (json.Object (map number_member (json.sorted_entries g))).
Proof.
  intros Hl. unfold json.decode, json.encode_map.
  change (json.lex json.LValue ("{" +:+ ?r))
    with (cons json.TBeginObject <$> json.lex json.LValue r).
  change "}" with (String "}" EmptyString).
  rewrite lex_members by exact Hl.
  change (json.lex json.LValue (String "}" EmptyString))
    with (Some [json.TEndObject]).
  cbn [fmap option_fmap option_map].
  change (json.parse [] (json.PValue false) (json.TBeginObject :: ?ts))
    with (json.parse [json.FObject [] None] (json.PKey true) ts).
  destruct (json.sorted_entries g) as [|[k v] r]; [reflexivity|].
  apply Forall_cons in Hl as [Hk Hr]. cbn [fst] in Hk.
  cbn [member_tokens app].
  change (json.parse ?st (json.PKey true) (json.TString ?a :: ?ts))
    with (json.parse st (json.PKey false) (json.TString a :: ts)).
  rewrite parse_member by exact Hk.
  by rewrite parse_members.
Qed.

(** ** Storing members *)

Lemma store_all_lookup kvs : ∀ g k,
  store_all kvs g !! k
  = match file_lookup k kvs with Some v => Some v | None => g !! k end.
Proof.
  induction kvs as [|[k' v] r IH]; intros g k; [done|].
  unfold store_all in *. cbn [foldl file_lookup fst snd]. rewrite IH.
  destruct (file_lookup k r); [done|].
  destruct (decide (k' = k)) as [->|Hne].
  - by rewrite lookup_insert_eq.
  - by rewrite lookup_insert_ne.
Qed.

Lemma file_lookup_elem_of kvs k :
  NoDup kvs.*1 → ∀ v, file_lookup k kvs = Some v ↔ (k, v) ∈ kvs.
Proof.
  induction kvs as [|[k' v'] r IH]; intros Hnd v.
  - split; [done|]. by intros ?%elem_of_nil.
  - apply NoDup_cons in Hnd as [Hnotin Hnd]. cbn [file_lookup].
    rewrite elem_of_cons. specialize (IH Hnd).
    assert (∀ x, (k, x) ∈ r → k ≠ k') as Hother.
    { intros x Hin ->. apply Hnotin. apply list_elem_of_fmap.
      by exists (k', x). }
    destruct (file_lookup k r) as [x|] eqn:E.
    + pose proof (proj1 (IH x) eq_refl) as Hx. split.
      * intros [= ->]. by right.
      * intros [[= -> ->]|Hin]; [by destruct (Hother x Hx)|].
        by apply IH in Hin.
    + destruct (decide (k' = k)) as [->|Hne].
      * split.
        -- intros [= ->]. by left.
        -- intros [[= ->]|Hin]; [done|]. apply IH in Hin. discriminate.
      * split; [done|].
        intros [[= -> ->]|Hin]; [done|]. apply IH in Hin. discriminate.
Qed.

Lemma sorted_entries_perm g : json.sorted_entries g ≡ₚ map_to_list g.
Proof. apply merge_sort_Permutation. Qed.

Lemma file_lookup_sorted_entries g k :
  file_lookup k (json.sorted_entries g) = g !! k.
Proof.
  assert (NoDup (json.sorted_entries g).*1) as Hnd.
  { rewrite sorted_entries_perm. apply NoDup_fst_map_to_list. }
  destruct (g !! k) as [v|] eqn:E.
  - apply file_lookup_elem_of; [exact Hnd|].
    rewrite sorted_entries_perm. by apply elem_of_map_to_list.
  - destruct (file_lookup k (json.sorted_entries g)) as [v|] eqn:E'; [|done].
    apply file_lookup_elem_of in E'; [|exact Hnd].
    rewrite sorted_entries_perm in E'. apply elem_of_map_to_list in E'.
    congruence.
Qed.

Lemma store_all_sorted_entries g g0 :
  g0 ⊆ g → store_all (json.sorted_entries g) g0 = g.
Proof.
  intros Hsub. apply map_eq. intros k.
  rewrite store_all_lookup, file_lookup_sorted_entries.
  destruct (g !! k) as [v|] eqn:E; [done|].
  by apply (lookup_weaken_None g0 g).
Qed.

Lemma store_number_members kvs : ∀ g failed,
  Forall (λ kv, kv.2 < two64) kvs →
  json.store_members (map number_member kvs) g failed
  = (store_all kvs g, failed).
Proof.
  induction kvs as [|[k v] r IH]; intros g failed Hl; [done|].
  apply Forall_cons in Hl as [Hv Hr]. cbn [snd] in Hv.
  cbn [map number_member json.store_members json.store_elem fst snd].
  rewrite ParseUint_FormatUint by exact Hv.
  rewrite IH by exact Hr. by rewrite orb_false_r.
Qed.

Lemma sorted_entries_Forall (P : string → N → Prop) g :
  map_Forall P g → Forall (λ kv, P kv.1 kv.2) (json.sorted_entries g).
Proof.
  intros HP. rewrite sorted_entries_perm.
  apply Forall_forall. intros [k v] Hin. apply elem_of_map_to_list in Hin.
  by apply (HP k v).
Qed.

(** Decoding an encoded table into a table that holds nothing else gives
    the table back. *)
Lemma Unmarshal_Marshal g m0 :
  map_Forall (λ k v, utf8.ValidString k = true ∧ v < two64) g →
  (m0 = None ∨ ∃ g0, m0 = Some g0 ∧ g0 ⊆ g) →
  json.Unmarshal (json.Marshal (Some g)).1 m0 = (None, Some g).
Proof.
  intros Hg Hm0. unfold json.Marshal, json.Unmarshal. cbn [fst].
  rewrite decode_encode_map.
  2:{ apply (sorted_entries_Forall (λ k _, utf8.ValidString k = true)).
      intros k v Hkv. by apply (Hg k v). }
  rewrite store_number_members.
  2:{ apply (sorted_entries_Forall (λ _ v, v < two64)).
      intros k v Hkv. by apply (Hg k v). }
  rewrite store_all_sorted_entries; [done|].
  destruct Hm0 as [->|(g0 & -> & Hsub)]; [|done].
  apply map_empty_subseteq.
Qed.

(** * Properties of [checkOverflow] *)

Lemma wrap64_small n : n < two64 → wrap64 n = n.
Proof. apply N.mod_small. Qed.

Lemma wrap64_le n : wrap64 n ≤ n.
Proof. apply N.Div0.mod_le. Qed.

Lemma wrap64_lt n : wrap64 n < two64.
Proof. apply N.mod_lt. discriminate. Qed.

Lemma fresh_initialised : initialised fresh.
Proof. split; eexists; reflexivity. Qed.

Lemma entry_insert_eq g k v : entry (<[k := v]> g) k = v.
Proof. unfold entry. by rewrite lookup_insert_eq. Qed.

Lemma entry_insert_ne g k k' v : k ≠ k' → entry (<[k := v]> g) k' = entry g k'.
Proof. intros. unfold entry. by rewrite lookup_insert_ne. Qed.

Lemma entry_empty k : entry ∅ k = 0.
Proof. reflexivity. Qed.

(** One call on a cache whose maps exist, in closed form. *)
Lemma checkOverflow_step c fs section key raw inc vs bs :
  values c = Some vs → baseValues c = Some bs →
  let ident := identity section key in
  let overflown := raw <? entry vs ident in
  let bs' := if overflown
             then <[ident := wrap64 (entry bs ident + inc)]> bs else bs in
  let c' := {| filename := filename c; values := Some (<[ident := raw]> vs);
               baseValues := Some bs' |} in
  checkOverflow c fs section key raw inc =
    Some (wrap64 (raw + entry bs' ident), overflown, c',
          if overflown then (dump c' fs).2 else fs).
Proof.
  intros Hv Hb. unfold checkOverflow. rewrite Hv, Hb.
  cbn -[dump wrap64 N.ltb entry].
  destruct (raw <? entry vs (identity section key)) eqn:Ho;
    cbn -[dump wrap64 N.ltb entry]; [|done].
  destruct (bs !! identity section key) as [b|] eqn:Hl.
  - rewrite bool_decide_eq_true_2 by eauto. cbn -[dump wrap64 N.ltb entry].
    done.
  - rewrite bool_decide_eq_false_2 by (intros [? ?]; congruence).
    cbn -[dump wrap64 N.ltb entry].
    rewrite insert_insert_eq, !entry_insert_eq.
    assert (entry bs (identity section key) = 0) as ->; [|done].
    unfold entry. by rewrite Hl.
Qed.

Lemma checkOverflow_total c fs section key raw inc :
  initialised c →
  ∃ v o c' fs', checkOverflow c fs section key raw inc = Some (v, o, c', fs')
                ∧ initialised c'.
Proof.
  intros [[vs Hv] [bs Hb]].
  rewrite (checkOverflow_step _ _ _ _ _ _ _ _ Hv Hb).
  do 4 eexists. split; [reflexivity|]. split; cbn; eauto.
Qed.

(** C1 (amended).  Two consecutive calls for one identity with one
    increment: if the earlier raw reading is below the increment, the
    corrected value of the later call fits 64 bits (its raw reading plus
    the stored base offset, plus the increment when the reading is below
    the earlier one, is below [2^64]) and, when the later reading is below
    the earlier one, the table of base offsets is allocated, then the
    later call returns and its corrected value is at least the earlier
    one's. *)
Theorem corrected_value_monotone c fs section key inc raw1 raw2 v1 o1 c1 fs1 :
  checkOverflow c fs section key raw1 inc = Some (v1, o1, c1, fs1) →
  raw1 < inc →
  raw2 + map_index (baseValues c1) (identity section key)
  + (if raw2 <? raw1 then inc else 0) < two64 →
  (raw2 < raw1 → is_Some (baseValues c)) →
  ∃ v2 o2 c2 fs2,
    checkOverflow c1 fs1 section key raw2 inc = Some (v2, o2, c2, fs2)
    ∧ v1 ≤ v2.
Proof.
  intros H1 Hraw Hfit Htable.
  destruct (values c) as [vs|] eqn:Hv.
  2:{ unfold checkOverflow in H1. rewrite Hv in H1.
      destruct (if raw1 <? _ then _ else _); discriminate. }
  set (ident := identity section key) in *.
  destruct (baseValues c) as [bs|] eqn:Hb.
  - rewrite (checkOverflow_step _ _ _ _ _ _ _ _ Hv Hb) in H1.
    injection H1 as <- <- <- <-. cbn [baseValues map_index] in Hfit.
    fold ident in Hfit |- *.
    set (bs1 := if raw1 <? entry vs ident then _ else bs) in *.
    erewrite checkOverflow_step by reflexivity. fold ident.
    do 4 eexists. split; [reflexivity|].
    rewrite entry_insert_eq.
    pose proof (wrap64_le (raw1 + entry bs1 ident)).
    destruct (raw2 <? raw1) eqn:Ho.
    + apply N.ltb_lt in Ho. rewrite entry_insert_eq.
      rewrite (wrap64_small (entry bs1 ident + inc)) by lia64.
      rewrite (wrap64_small (raw2 + _)) by lia64. lia.
    + apply N.ltb_ge in Ho. rewrite (wrap64_small (raw2 + _)) by lia64. lia.
  - assert (raw1 ≤ raw2) as Hle.
    { destruct (N.le_gt_cases raw1 raw2) as [|Hlt]; [done|].
      destruct (Htable Hlt) as [? ?]. discriminate. }
    unfold checkOverflow in H1 |- *. rewrite Hv, Hb in H1.
    fold ident in H1 |- *.
    cbn [map_index map_comma_ok map_assign negb mbind option_bind] in H1.
    destruct (raw1 <? entry vs ident); [discriminate|].
    cbn [mbind option_bind] in H1. injection H1 as <- <- <- <-.
    cbn [values baseValues filename map_index map_assign].
    rewrite entry_insert_eq.
    replace (raw2 <? raw1) with false by (symmetry; apply N.ltb_ge; exact Hle).
    cbn [mbind option_bind]. do 4 eexists. split; [reflexivity|].
    cbn [map_index baseValues] in Hfit |- *.
    replace (raw2 <? raw1) with false in Hfit
      by (symmetry; apply N.ltb_ge; exact Hle).
    rewrite (wrap64_small (raw2 + 0)) by lia64.
    pose proof (wrap64_le (raw1 + 0)). lia.
Qed.

Lemma corrected_value_monotone_witness :
  ∃ v2 o2 c2 fs2,
    checkOverflow
      {| filename := EmptyString;
         values := Some {[ "status_received_bytes" := 4000000000 ]};
         baseValues := Some ∅ |}
      empty_fs "status" "received_bytes" 5 4294967295
    = Some (v2, o2, c2, fs2) ∧ 4000000000 ≤ v2.
Proof.
  apply (corrected_value_monotone fresh empty_fs "status" "received_bytes"
           4294967295 4000000000 5 4000000000 false).
  - vm_compute. reflexivity.
  - reflexivity.
  - reflexivity.
  - intros _. eexists. reflexivity.
Defined.

(** C1, as stated, fails: for a 64-bit counter (increment [MaxUint64]) on a
    fresh cache the readings 10 and then 5, both below the increment and
    with one wraparound between them, are corrected to 10 and then 4. *)
Lemma corrected_value_not_monotone :
  outputs (observe_all fresh empty_fs "status" "sent_bytes" MaxUint64 [10; 5])
  = Some [(10, false); (4, true)]
  ∧ 10 < MaxUint64 ∧ 5 < MaxUint64 ∧ ¬ (10 ≤ 4).
Proof. split; [vm_compute; reflexivity|]. unfold MaxUint64. lia. Qed.

(** What the two conditions of C1 (amended) are for.  On the nil table
    that loading [null] leaves, the readings 10 and then 5 make the later
    call panic.  And with a base offset of [2^64 - 2^32] the readings 10
    and then 20, with no overflow between them, are within the amended
    claim although one more increment would not fit. *)
Lemma corrected_value_conditions :
  (∃ c1 fs1,
     checkOverflow
       (load (with_filename fresh "tpg_cache") (table_file "null")).2
       (table_file "null") "status" "sent_bytes" 10 1000
     = Some (10, false, c1, fs1)
     ∧ checkOverflow c1 fs1 "status" "sent_bytes" 5 1000 = None)
  ∧ outputs (observe_all
               {| filename := EmptyString; values := Some ∅;
                  baseValues :=
                    Some {[ "status_sent_bytes" := 18446744069414584320 ]} |}
               empty_fs "status" "sent_bytes" 4294967295 [10; 20])
    = Some [(18446744069414584330, false); (18446744069414584340, false)].
Proof.
  split.
  - do 2 eexists. split; vm_compute; reflexivity.
  - vm_compute. reflexivity.
Qed.

(** The results of a run do not depend on the file system. *)
Lemma observe_all_cons c fs section key inc raw rest vs bs :
  values c = Some vs → baseValues c = Some bs →
  let ident := identity section key in
  let overflown := raw <? entry vs ident in
  let bs' := if overflown
             then <[ident := wrap64 (entry bs ident + inc)]> bs else bs in
  let c' := {| filename := filename c; values := Some (<[ident := raw]> vs);
               baseValues := Some bs' |} in
  outputs (observe_all c fs section key inc (raw :: rest)) =
  cons (wrap64 (raw + entry bs' ident), overflown) <$>
    outputs (observe_all c' (if overflown then (dump c' fs).2 else fs)
               section key inc rest).
Proof.
  intros Hv Hb. cbn [observe_all].
  rewrite (checkOverflow_step _ _ _ _ _ _ _ _ Hv Hb).
  cbn -[dump wrap64 N.ltb entry checkOverflow].
  destruct (observe_all _ _ _ _ _ rest) as [[[out c2] fs2]|]; reflexivity.
Qed.

(** C2 (amended).  On a fresh cache, for one identity with increment 1000:
    the readings 100, 50 give (100, false), (1050, true); continuing with 5
    gives (2005, true) and 5 again gives (2005, false).  On a fresh cache
    the readings 0, 10, 5, 5 give (0, false), (10, false), (1005, true),
    (1005, false): an unchanged reading is not an overflow. *)
Theorem single_wraparound_runs fs section key :
  outputs (observe_all fresh fs section key 1000 [100; 50; 5; 5])
  = Some [(100, false); (1050, true); (2005, true); (2005, false)]
  ∧ outputs (observe_all fresh fs section key 1000 [0; 10; 5; 5])
  = Some [(0, false); (10, false); (1005, true); (1005, false)].
Proof.
  split.
  - repeat (erewrite observe_all_cons by reflexivity;
            rewrite ?entry_insert_eq, ?entry_empty;
            cbn [N.ltb N.compare Pos.compare Pos.compare_cont]).
    rewrite ?entry_insert_eq. reflexivity.
  - repeat (erewrite observe_all_cons by reflexivity;
            rewrite ?entry_insert_eq, ?entry_empty;
            cbn [N.ltb N.compare Pos.compare Pos.compare_cont]).
    rewrite ?entry_insert_eq, ?entry_empty. reflexivity.
Qed.

(** C2, as stated, fails: after the readings 100 and 50 the reading 5 is
    corrected to 2005, not to 1005. *)
Lemma single_wraparound_continued :
  outputs (observe_all fresh empty_fs "status" "uptime" 1000 [100; 50; 5])
  = Some [(100, false); (1050, true); (2005, true)]
  ∧ (2005, true) ≠ (1005, true).
Proof. split; [vm_compute; reflexivity | discriminate]. Qed.




(** Over a run of calls for one identity with one increment, the base
    offset of the identity grows by the increment once per reported
    overflow, and no other entry changes. *)
Lemma base_offset_multiple section key inc raws : ∀ c fs,
  initialised c →
  map_index (baseValues c) (identity section key) < two64 →
  ∃ out c' fs',
    observe_all c fs section key inc raws = Some (out, c', fs')
    ∧ initialised c'
    ∧ map_index (baseValues c') (identity section key)
      = wrap64 (map_index (baseValues c) (identity section key)
                + N.of_nat (length (filter (λ r, r.2 = true) out)) * inc)
    ∧ (∀ k, k ≠ identity section key →
         map_index (baseValues c') k = map_index (baseValues c) k).
Proof.
  induction raws as [|raw rest IH]; intros c fs [[vs Hv] [bs Hb]] Hlt.
  - do 3 eexists. split; [reflexivity|]. split; [split; eauto|].
    split; [|done]. cbn [length filter]. rewrite N.mul_0_l, N.add_0_r.
    by rewrite wrap64_small.
  - cbn [observe_all]. rewrite (checkOverflow_step _ _ _ _ _ _ _ _ Hv Hb).
    cbn -[dump wrap64 N.ltb entry observe_all].
    set (ident := identity section key) in *.
    set (o := raw <? entry vs ident).
    set (bs' := if o then _ else bs).
    set (c1 := {| filename := filename c |}).
    destruct (IH c1 (if o then (dump c1 fs).2 else fs))
      as (out & c' & fs' & -> & Hi & Hm & Hk).
    { split; eexists; reflexivity. }
    { cbn. subst bs'. destruct o; [|by rewrite Hb in Hlt].
      rewrite entry_insert_eq. apply wrap64_lt. }
    cbn -[wrap64]. do 3 eexists. split; [reflexivity|]. split; [done|].
    rewrite Hb in *. cbn [map_index baseValues c1] in *. split.
    + rewrite Hm. subst bs'. rewrite filter_cons. cbn [snd].
      destruct o; cbn [length].
      * rewrite decide_True by done. rewrite entry_insert_eq. cbn [length].
        unfold wrap64. rewrite N.Div0.add_mod_idemp_l. f_equal. lia.
      * rewrite decide_False by done. done.
    + intros k Hne. rewrite (Hk k Hne). subst bs'. destruct o; [|done].
      by rewrite entry_insert_ne.
Qed.

(** C4.  The first call for an identity that has no last raw reading
    returns the raw reading plus the base offset the table holds for the
    identity (zero if it holds none), added as [uint64], and reports no
    overflow; the file system is not touched. *)
Theorem first_observation c fs section key raw inc vs :
  values c = Some vs → vs !! identity section key = None →
  ∃ c', checkOverflow c fs section key raw inc
        = Some (wrap64 (raw + map_index (baseValues c) (identity section key)),
                false, c', fs).
Proof.
  intros Hv Hnone. unfold checkOverflow. rewrite Hv.
  cbn -[dump wrap64 N.ltb].
  unfold entry. rewrite Hnone. cbn -[dump wrap64].
  replace (raw <? 0) with false by (symmetry; apply N.ltb_ge; lia).
  cbn -[dump wrap64]. eexists. reflexivity.
Qed.

Lemma first_observation_witness :
  ∃ c', checkOverflow fresh empty_fs "a" "uptime" 0 1000
        = Some (0, false, c', empty_fs).
Proof.
  exact (first_observation fresh empty_fs "a" "uptime" 0 1000 ∅
           eq_refl eq_refl).
Defined.

Lemma observe_nondecreasing section key inc raws : ∀ c fs vs bs,
  values c = Some vs → baseValues c = Some bs →
  bs !! identity section key = None →
  forallb (λ r, r <? two64) raws = true →
  nondecreasing (entry vs (identity section key) :: raws) = true →
  ∃ c', observe_all c fs section key inc raws
        = Some (map (λ r, (r, false)) raws, c', fs).
Proof.
  induction raws as [|raw rest IH]; intros c fs vs bs Hv Hb Hnone Hlt Hup.
  - eexists. reflexivity.
  - cbn [forallb nondecreasing] in Hlt, Hup.
    apply andb_prop in Hlt as [Hraw Hlt]. apply andb_prop in Hup as [Hle Hup].
    apply N.ltb_lt in Hraw. apply N.leb_le in Hle.
    cbn [observe_all]. rewrite (checkOverflow_step _ _ _ _ _ _ _ _ Hv Hb).
    cbn -[dump wrap64 N.ltb entry observe_all].
    replace (raw <? entry vs (identity section key)) with false
      by (symmetry; apply N.ltb_ge; lia).
    edestruct (IH {| filename := filename c;
                     values := Some (<[identity section key := raw]> vs);
                     baseValues := Some bs |} fs) as [c' ->];
      [reflexivity | reflexivity | exact Hnone | exact Hlt | | ].
    { by rewrite entry_insert_eq. }
    cbn -[wrap64]. eexists. do 4 f_equal.
    unfold entry. rewrite Hnone. cbn -[wrap64].
    rewrite N.add_0_r. by rewrite wrap64_small.
Qed.

(** C5.  On a fresh cache, a run of readings of one identity that never
    decrease and all stay below the increment (a [uint64]) returns each
    reading unchanged with the overflow flag unset, and leaves the file
    system alone. *)
Theorem no_wrap_run fs section key inc raws :
  inc < two64 →
  forallb (λ r, r <? inc) raws = true →
  nondecreasing raws = true →
  ∃ c', observe_all fresh fs section key inc raws
        = Some (map (λ r, (r, false)) raws, c', fs).
Proof.
  intros Hinc Hlt Hup.
  apply (observe_nondecreasing section key inc raws fresh fs ∅ ∅);
    try reflexivity.
  - apply forallb_forall. intros r Hr.
    rewrite forallb_forall in Hlt. specialize (Hlt r Hr).
    apply N.ltb_lt in Hlt. apply N.ltb_lt. lia.
  - rewrite entry_empty. destruct raws as [|r rest]; [done|].
    change (((0 <=? r) && nondecreasing (r :: rest))%bool = true).
    rewrite Hup, andb_true_r. apply N.leb_le. lia.
Qed.

Lemma no_wrap_run_witness :
  ∃ c', observe_all fresh empty_fs "status" "received_packets" 4294967295
          [0; 17; 17; 4294967294]
        = Some ([(0, false); (17, false); (17, false); (4294967294, false)],
                c', empty_fs).
Proof.
  exact (no_wrap_run empty_fs "status" "received_packets" 4294967295
           [0; 17; 17; 4294967294] eq_refl eq_refl eq_refl).
Defined.

(** C10.  The arithmetic of a call is 64-bit: on overflow the base offset
    becomes the old one plus the increment modulo [2^64], and the value
    returned is the raw reading plus the base offset modulo [2^64].  A
    state reached from the fresh cache shows the wrap: with increment
    [MaxUint64], after the reading 10 the reading 5 is corrected to 4,
    which is below the raw reading. *)
Theorem uint64_arithmetic :
  (∀ c fs section key raw inc vs bs,
     values c = Some vs → baseValues c = Some bs →
     ∃ c' fs',
       checkOverflow c fs section key raw inc
       = Some ((raw + map_index (baseValues c') (identity section key))
                 mod 2 ^ 64,
               raw <? map_index (values c) (identity section key), c', fs')
       ∧ map_index (baseValues c') (identity section key)
         = if raw <? map_index (values c) (identity section key)
           then (map_index (baseValues c) (identity section key) + inc)
                  mod 2 ^ 64
           else map_index (baseValues c) (identity section key))
  ∧ (∃ c1 fs1 v c2 fs2,
       checkOverflow fresh empty_fs "status" "sent_bytes" 10 MaxUint64
       = Some (10, false, c1, fs1)
       ∧ checkOverflow c1 fs1 "status" "sent_bytes" 5 MaxUint64
         = Some (v, true, c2, fs2)
       ∧ v < 5).
Proof.
  split.
  - intros c fs section key raw inc vs bs Hv Hb.
    rewrite (checkOverflow_step _ _ _ _ _ _ _ _ Hv Hb). rewrite Hv, Hb.
    change (2 ^ 64) with two64.
    match goal with
    | |- ∃ c' fs', Some (_, _, ?C, ?F) = _ ∧ _ => exists C, F
    end.
    split; [reflexivity|]. cbn [map_index baseValues].
    destruct (raw <? entry vs (identity section key)); [|done].
    by rewrite entry_insert_eq.
  - do 5 eexists. split; [vm_compute; reflexivity|].
    split; [vm_compute; reflexivity|]. reflexivity.
Qed.

(** * Properties of [load] and [dump] *)

Lemma table_ok_Forall g :
  table_ok g = true →
  map_Forall (λ k v, utf8.ValidString k = true ∧ v < two64) g.
Proof.
  intros Hok k v Hkv. unfold table_ok in Hok.
  rewrite forallb_forall in Hok.
  specialize (Hok (k, v)). cbn [fst snd] in Hok.
  apply andb_prop in Hok as [Hk Hv].
  - split; [exact Hk | by apply N.ltb_lt].
  - apply list_elem_of_In. by apply elem_of_map_to_list.
Qed.


Lemma load_read c fs content :
  ioutil.ReadFile fs (filename c) = (content, None) →
  load c fs = ((json.Unmarshal content (baseValues c)).1,
               with_baseValues c (json.Unmarshal content (baseValues c)).2).
Proof.
  intros Hread. unfold load. rewrite Hread.
  by destruct (json.Unmarshal content (baseValues c)).
Qed.

Lemma ReadFile_WriteFile fs fs' name data :
  ioutil.WriteFile fs name data = (None, fs') →
  name ∉ unreadable fs →
  ioutil.ReadFile fs' name = (data, None).
Proof.
  unfold ioutil.WriteFile. intros Hw Hr.
  repeat case_bool_decide; try discriminate.
  injection Hw as <-. unfold ioutil.ReadFile. cbn [files unreadable].
  rewrite lookup_insert_eq. by rewrite bool_decide_eq_false_2.
Qed.

(** C6 (amended).  If every key of the table is well-formed UTF-8 (and
    every value a [uint64]), the dump succeeds and the file can be read,
    then loading the file into a cache of the same file name whose table
    is nil, empty or any part of the dumped table (the dumping cache
    itself, or a cache set up after a restart) succeeds and leaves exactly
    the dumped table. *)
Theorem dump_load_round_trip c fs fs' c0 g :
  baseValues c = Some g →
  table_ok g = true →
  dump c fs = (None, fs') →
  filename c ∉ unreadable fs →
  filename c0 = filename c →
  (baseValues c0 = None ∨ ∃ g0, baseValues c0 = Some g0 ∧ g0 ⊆ g) →
  load c0 fs' = (None, with_baseValues c0 (Some g)).
Proof.
  intros Hb Hok Hdump Hread Hname Hc0.
  unfold dump in Hdump. rewrite Hb in Hdump. cbn [json.Marshal] in Hdump.
  rewrite (load_read c0 fs' (json.Marshal (Some g)).1).
  - by rewrite Unmarshal_Marshal by (by apply table_ok_Forall || done).
  - rewrite Hname. by apply (ReadFile_WriteFile fs).
Qed.

Lemma dump_load_round_trip_witness :
  ∃ fs',
    dump sample_cache empty_fs = (None, fs')
    ∧ load (setup fresh empty_fs "/etc/telegraf/tpg_cache" 60) fs'
      = (None, with_baseValues (setup fresh empty_fs "/etc/telegraf/tpg_cache" 60)
                 (baseValues sample_cache)).
Proof.
  eexists. split; [vm_compute; reflexivity|].
  eapply (dump_load_round_trip sample_cache empty_fs).
  - reflexivity.
  - vm_compute. reflexivity.
  - vm_compute. reflexivity.
  - apply not_elem_of_empty.
  - reflexivity.
  - right. exists ∅. split; [reflexivity|]. apply map_empty_subseteq.
Defined.

(** C6, as stated, fails: a key that is not well-formed UTF-8 is written
    with the replacement character in place of each bad byte, so the table
    loaded back has another key. *)
Lemma dump_load_changes_key :
  ∃ fs' c1 c2,
    dump bad_key_cache empty_fs = (None, fs')
    ∧ load (setup fresh empty_fs "tpg_cache" 60) fs' = (None, c1)
    ∧ map_comma_ok (baseValues c1) bad_key = false
    ∧ load bad_key_cache fs' = (None, c2)
    ∧ map_comma_ok (baseValues c2) ("status_" +:+ utf8.EncodeRune utf8.RuneError)
      = true
    ∧ baseValues c1 ≠ baseValues bad_key_cache
    ∧ baseValues c2 ≠ baseValues bad_key_cache.
Proof.
  do 3 eexists. split; [vm_compute; reflexivity|].
  split; [vm_compute; reflexivity|]. split; [vm_compute; reflexivity|].
  split; [vm_compute; reflexivity|]. split; [vm_compute; reflexivity|].
  split.
  - intros H. apply (f_equal (λ m, map_comma_ok m bad_key)) in H.
    vm_compute in H. discriminate.
  - intros H.
    apply (f_equal (λ m, map_comma_ok m
                           ("status_" +:+ utf8.EncodeRune utf8.RuneError))) in H.
    vm_compute in H. discriminate.
Qed.

Lemma store_flat_members ms : ∀ kvs g failed,
  flat_members ms = Some kvs →
  json.store_members ms g failed = (store_all kvs g, failed).
Proof.
  induction ms as [|[k v] r IH]; intros kvs g failed Hflat.
  - by injection Hflat as <-.
  - cbn [flat_members] in Hflat.
    destruct (flat_member (k, v)) as [[k' n]|] eqn:Hm; [|discriminate].
    destruct (flat_members r) as [kvs'|] eqn:Hr; [|discriminate].
    injection Hflat as <-. unfold flat_member in Hm. cbn [fst snd] in Hm.
    destruct v as [| |lit| | |]; try discriminate.
    destruct (strconv.ParseUint lit) as [n'|] eqn:Hp; [|discriminate].
    injection Hm as <- <-.
    cbn [json.store_members json.store_elem]. rewrite Hp.
    rewrite (IH kvs') by reflexivity. by rewrite orb_false_r.
Qed.

(** C8 (amended).  When the file can be read and its content is a JSON
    object of [uint64] numbers, the load succeeds and stores the pairs of
    the file into the table the cache already holds: a key of the file maps
    to its (last) value in the file, and every other key keeps the entry it
    had before the call.  The table is exactly the mapping of the file when
    it held nothing before the call. *)
Theorem load_stores_into_table c fs content kvs :
  ioutil.ReadFile fs (filename c) = (content, None) →
  flat_table content = Some kvs →
  ∃ g,
    load c fs = (None, with_baseValues c (Some g))
    ∧ (∀ k, g !! k = match file_lookup k kvs with
                     | Some v => Some v
                     | None => default ∅ (baseValues c) !! k
                     end)
    ∧ (default ∅ (baseValues c) = ∅ → ∀ k, g !! k = file_lookup k kvs).
Proof.
  intros Hread Hflat. rewrite (load_read _ _ _ Hread).
  unfold flat_table in Hflat. unfold json.Unmarshal.
  destruct (json.decode content) as [[| | | | |ms]|]; try discriminate.
  rewrite (store_flat_members ms kvs) by exact Hflat. cbn [fst snd].
  eexists. split; [reflexivity|]. split.
  - intros k. apply store_all_lookup.
  - intros Hempty k. rewrite store_all_lookup, Hempty, lookup_empty.
    by destruct (file_lookup k kvs).
Qed.

Lemma load_stores_into_table_witness :
  ∃ g,
    load uptime_cache (table_file (json_text "{'status_sent_bytes': 5}"))
    = (None, with_baseValues uptime_cache (Some g))
    ∧ g !! "status_sent_bytes" = Some 5
    ∧ g !! "status_uptime" = Some 7.
Proof.
  destruct (load_stores_into_table uptime_cache
              (table_file (json_text "{'status_sent_bytes': 5}"))
              (json_text "{'status_sent_bytes': 5}")
              [("status_sent_bytes", 5)] eq_refl eq_refl)
    as (g & Hload & Hk & _).
  exists g. split; [exact Hload|].
  split; [exact (Hk "status_sent_bytes") | exact (Hk "status_uptime")].
Defined.

(** C8, as stated, fails: an entry whose key is not in the file survives a
    successful load. *)
Lemma load_keeps_other_entries :
  ∃ c',
    flat_table (json_text "{'status_sent_bytes': 5}")
    = Some [("status_sent_bytes", 5)]
    ∧ load uptime_cache (table_file (json_text "{'status_sent_bytes': 5}"))
      = (None, c')
    ∧ map_index (baseValues c') "status_uptime" = 7
    ∧ map_comma_ok (baseValues c') "status_uptime" = true
    ∧ baseValues c' ≠ Some {[ "status_sent_bytes" := 5 ]}.
Proof.
  eexists. split; [vm_compute; reflexivity|].
  split; [vm_compute; reflexivity|].
  split; [vm_compute; reflexivity|]. split; [vm_compute; reflexivity|].
  intros H. apply (f_equal (λ m, map_comma_ok m "status_uptime")) in H.
  vm_compute in H. discriminate.
Qed.





(** A member that is [null] is no failure: it is stored as 0. *)
Lemma load_null_member :
  load (with_filename fresh "tpg_cache") (table_file (json_text "{'a': null}"))
  = (None, with_baseValues (with_filename fresh "tpg_cache")
             (Some {[ "a" := 0 ]})).
Proof. vm_compute. reflexivity. Qed.

(** * The key of a counter *)






(** The key in the file is the identity only when it is well-formed UTF-8:
    for the metric that is the one byte 255, an overflow is recorded in
    memory under the identity, and the file holds the offset under the
    section, the underscore and U+FFFD. *)
Lemma identity_persisted_replaced :
  ∃ v c' fs' content kvs,
    checkOverflow
      {| filename := "tpg_cache"; values := Some {[ bad_key := 9 ]};
         baseValues := Some ∅ |}
      empty_fs "status" (String (byte 255) EmptyString) 3 1000
    = Some (v, true, c', fs')
    ∧ map_index (baseValues c') bad_key = 1000
    ∧ files fs' !! "tpg_cache" = Some content
    ∧ flat_table content = Some kvs
    ∧ file_lookup bad_key kvs = None
    ∧ file_lookup ("status_" +:+ utf8.EncodeRune utf8.RuneError) kvs
      = Some 1000.
Proof.
  do 5 eexists. split; [vm_compute; reflexivity|].
  split; [vm_compute; reflexivity|]. split; [vm_compute; reflexivity|].
  split; [vm_compute; reflexivity|]. split; vm_compute; reflexivity.
Qed.

(** * Further properties *)



(** Without well-formed keys the file need not hold the table: two keys
    that differ in a byte that is not UTF-8 are written as one. *)
Lemma persisted_keys_collapse :
  ∃ v c' fs' content g,
    checkOverflow
      {| filename := "tpg_cache";
         values := Some {[ "m_" +:+ String (byte 255) EmptyString := 9 ]};
         baseValues := Some {[ "m_" +:+ String (byte 254) EmptyString := 1 ]} |}
      empty_fs "m" (String (byte 255) EmptyString) 3 1000
    = Some (v, true, c', fs')
    ∧ files fs' !! "tpg_cache" = Some content
    ∧ size (default ∅ (baseValues c')) = 2%nat
    ∧ json.Unmarshal content None = (None, Some g)
    ∧ size g = 1%nat.
Proof.
  do 5 eexists. split; [vm_compute; reflexivity|].
  split; [vm_compute; reflexivity|]. split; [vm_compute; reflexivity|].
  split; vm_compute; reflexivity.
Qed.

(** X2.  A cache whose base-offset table is nil panics on the first
    overflow it detects: the entry of a nil map cannot be assigned. *)
Theorem nil_table_overflow_panics c fs section key raw inc vs :
  values c = Some vs → baseValues c = None →
  raw < entry vs (identity section key) →
  checkOverflow c fs section key raw inc = None.
Proof.
  intros Hv Hb Hlt. unfold checkOverflow. rewrite Hv, Hb.
  cbn [map_index]. apply N.ltb_lt in Hlt. rewrite Hlt. reflexivity.
Qed.

(** The table is nil after a successful load of a file that holds [null]:
    the next overflow panics. *)
Lemma nil_table_overflow_panics_witness :
  ∃ c1 c2 fs2,
    load uptime_cache (table_file "null") = (None, c1)
    ∧ baseValues c1 = None
    ∧ checkOverflow c1 (table_file "null") "status" "uptime" 10 0
      = Some (10, false, c2, fs2)
    ∧ checkOverflow c2 fs2 "status" "uptime" 5 0 = None.
Proof.
  do 3 eexists. split; [vm_compute; reflexivity|].
  split; [reflexivity|]. split; [vm_compute; reflexivity|].
  apply (nil_table_overflow_panics _ _ "status" "uptime" 5 0
           {[ "status_uptime" := 10 ]}); reflexivity.
Defined.

Lemma base_offset_multiple_witness :
  ∃ out c' fs',
    observe_all fresh empty_fs "status" "sent_bytes" 4294967295 [9; 4; 6; 2]
    = Some (out, c', fs')
    ∧ map_index (baseValues c') "status_sent_bytes" = 2 * 4294967295.
Proof.
  destruct (base_offset_multiple "status" "sent_bytes" 4294967295 [9; 4; 6; 2]
              fresh empty_fs fresh_initialised eq_refl)
    as (out & c' & fs' & Hrun & _ & Hbase & _).
  exists out, c', fs'. split; [exact Hrun|].
  change "status_sent_bytes" with (identity "status" "sent_bytes").
  rewrite Hbase. vm_compute in Hrun. injection Hrun as <- _ _.
  reflexivity.
Defined.

(** A nil table is written as [null] and read back as nil. *)
Lemma dump_load_nil c fs fs' c0 :
  baseValues c = None →
  dump c fs = (None, fs') →
  filename c ∉ unreadable fs →
  filename c0 = filename c →
  load c0 fs' = (None, with_baseValues c0 None).
Proof.
  intros Hb Hdump Hread Hname.
  unfold dump in Hdump. rewrite Hb in Hdump. cbn [json.Marshal] in Hdump.
  rewrite (load_read c0 fs' (json.encode_map None)).
  - reflexivity.
  - rewrite Hname. by apply (ReadFile_WriteFile fs).
Qed.

(** * The cache and its file *)

(** X4.  What a call returns and the cache it leaves do not depend on the
    file system: value, flag and both tables are the same whatever files
    exist and whether or not the dump succeeds. *)
Theorem checkOverflow_ignores_files c fs1 fs2 section key raw inc :
  in_memory (checkOverflow c fs1 section key raw inc)
  = in_memory (checkOverflow c fs2 section key raw inc).
Proof.
  unfold checkOverflow, in_memory.
  destruct (if raw <? map_index (values c) (identity section key) then _ else _)
    as [bv|]; [|reflexivity].
  cbn [mbind option_bind].
  destruct (map_assign (values c) (identity section key) raw); reflexivity.
Qed.

Lemma dump_unwritable c fs :
  filename c = EmptyString ∨ filename c ∈ unwritable fs →
  ∃ e, dump c fs = (Some e, fs).
Proof.
  intros H. unfold dump, json.Marshal, ioutil.WriteFile.
  destruct H as [-> | H].
  - by eexists.
  - case_bool_decide; [by eexists|].
    rewrite bool_decide_eq_true_2 by exact H. by eexists.
Qed.

(** X5.  A dump that fails is only logged.  On a cache without a file
    name, or with a file that cannot be written, the call still returns
    and the base offset is still raised in memory on overflow; the file
    system stays as it was. *)
Theorem failed_dump_is_silent c fs section key raw inc vs bs :
  values c = Some vs → baseValues c = Some bs →
  filename c = EmptyString ∨ filename c ∈ unwritable fs →
  ∃ v o c',
    checkOverflow c fs section key raw inc = Some (v, o, c', fs)
    ∧ baseValues c' = Some (if raw <? entry vs (identity section key)
                            then <[identity section key :=
                                     wrap64 (entry bs (identity section key) + inc)]> bs
                            else bs).
Proof.
  intros Hv Hb Hw. rewrite (checkOverflow_step _ _ _ _ _ _ _ _ Hv Hb).
  do 3 eexists. split.
  - do 2 f_equal.
    destruct (raw <? entry vs (identity section key)); [|reflexivity].
    edestruct (dump_unwritable) as [e ->]; [|reflexivity]. exact Hw.
  - reflexivity.
Qed.

Lemma failed_dump_is_silent_witness :
  ∃ v o c',
    checkOverflow (with_filename tracking_cache EmptyString) empty_fs
                  "status" "uptime" 3 increment
    = Some (v, o, c', empty_fs)
    ∧ baseValues c'
      = Some (if 3 <? entry {[ "status_uptime" := 9 ]} (identity "status" "uptime")
              then <[identity "status" "uptime" :=
                       wrap64 (entry {[ "status_uptime" := 7 ]}
                                     (identity "status" "uptime") + increment)]>
                     {[ "status_uptime" := 7 ]}
              else {[ "status_uptime" := 7 ]}).
Proof.
  apply (failed_dump_is_silent (with_filename tracking_cache EmptyString)
           empty_fs "status" "uptime" 3 increment
           {[ "status_uptime" := 9 ]} {[ "status_uptime" := 7 ]});
    [reflexivity|reflexivity|by left].
Defined.

Lemma setup_load c fs name d :
  setup c fs name d = (load (with_filename c name) fs).2.
Proof. reflexivity. Qed.

Lemma load_after_dump c fs fs' c0 g :
  baseValues c = Some g → table_ok g = true →
  dump c fs = (None, fs') →
  filename c ∉ unreadable fs → filename c0 = filename c →
  (baseValues c0 = None ∨ ∃ g0, baseValues c0 = Some g0 ∧ g0 ⊆ g) →
  load c0 fs' = (None, with_baseValues c0 (Some g)).
Proof.
  intros Hb Hok Hdump Hread Hname Hc0.
  unfold dump in Hdump. rewrite Hb in Hdump. cbn [json.Marshal] in Hdump.
  rewrite (load_read c0 fs' (json.Marshal (Some g)).1).
  - by rewrite Unmarshal_Marshal by (by apply table_ok_Forall || done).
  - rewrite Hname. by apply (ReadFile_WriteFile fs).
Qed.

Lemma dump_writable c fs :
  filename c ≠ EmptyString → filename c ∉ unwritable fs →
  ∃ fs', dump c fs = (None, fs').
Proof.
  intros Hname Hw. unfold dump, json.Marshal, ioutil.WriteFile.
  rewrite bool_decide_eq_false_2 by exact Hname.
  rewrite bool_decide_eq_false_2 by exact Hw. by eexists.
Qed.

(** X6.  Offsets survive a restart of the plugin.  After an overflow has
    been written to the cache file, a fresh cache set up with that file
    has the table of base offsets of the old one and no readings; every
    first call of [get] on it returns the raw reading plus the stored
    offset and records the reading. *)
Theorem restart_restores_offsets c fs section key raw inc vs bs d :
  values c = Some vs → baseValues c = Some bs →
  raw < entry vs (identity section key) →
  filename c ≠ EmptyString →
  filename c ∉ unwritable fs → filename c ∉ unreadable fs →
  table_ok (<[identity section key :=
                wrap64 (entry bs (identity section key) + inc)]> bs) = true →
  ∃ v c' fs',
    checkOverflow c fs section key raw inc = Some (v, true, c', fs')
    ∧ baseValues (setup fresh fs' (filename c) d) = baseValues c'
    ∧ values (setup fresh fs' (filename c) d) = Some ∅
    ∧ ∀ section2 key2 raw2 inc2,
        get (setup fresh fs' (filename c) d) fs' section2 key2 raw2 inc2
        = Some (wrap64 (raw2 + map_index (baseValues c')
                                 (identity section2 key2)),
                with_values (setup fresh fs' (filename c) d)
                  (Some {[ identity section2 key2 := raw2 ]}),
                fs').
Proof.
  intros Hv Hb Hlt Hname Hw Hr Hok.
  rewrite (checkOverflow_step _ _ _ _ _ _ _ _ Hv Hb).
  apply N.ltb_lt in Hlt. rewrite Hlt.
  set (g := <[identity section key := _]> bs) in *.
  set (c' := {| filename := filename c; values := _; baseValues := Some g |}).
  destruct (dump_writable c' fs Hname Hw) as [fs' Hdump]. rewrite Hdump.
  exists (wrap64 (raw + entry g (identity section key))), c', fs'.
  split; [reflexivity|].
  assert (load (with_filename fresh (filename c)) fs'
          = (None, with_baseValues (with_filename fresh (filename c)) (Some g)))
    as Hload.
  { apply (load_after_dump c' fs); try done.
    right. exists ∅. split; [reflexivity|apply map_empty_subseteq]. }
  rewrite setup_load, Hload. cbn [snd].
  split; [reflexivity|]. split; [reflexivity|].
  intros section2 key2 raw2 inc2. unfold get.
  erewrite checkOverflow_step by reflexivity.
  rewrite entry_empty.
  replace (raw2 <? 0) with false by (symmetry; apply N.ltb_ge; lia).
  reflexivity.
Qed.

Lemma restart_restores_offsets_witness :
  ∃ v c' fs',
    checkOverflow tracking_cache empty_fs "status" "uptime" 3 4294967295
    = Some (v, true, c', fs')
    ∧ get (setup fresh fs' "tpg_cache" 60) fs' "status" "uptime" 5 4294967295
      = Some (4294967307,
              with_values (setup fresh fs' "tpg_cache" 60)
                (Some {[ "status_uptime" := 5 ]}), fs').
Proof.
  destruct (restart_restores_offsets tracking_cache empty_fs "status" "uptime"
              3 4294967295 {[ "status_uptime" := 9 ]}
              {[ "status_uptime" := 7 ]} 60)
    as (v & c' & fs' & Hcall & Hb & _ & Hget);
    [reflexivity | reflexivity | reflexivity | discriminate
    | apply not_elem_of_empty | apply not_elem_of_empty
    | vm_compute; reflexivity |].
  exists v, c', fs'. split; [exact Hcall|].
  change (filename tracking_cache) with "tpg_cache" in Hget.
  rewrite (Hget "status" "uptime" 5 4294967295). do 3 f_equal.
  vm_compute in Hcall. injection Hcall as _ <- _. reflexivity.
Defined.

(** X7.  [setup] with a file that does not exist, cannot be read or does
    not hold JSON only sets the file name: both tables stay as they were,
    and the error of [load] is not returned. *)
Theorem setup_without_file c fs name d :
  files fs !! name = None ∨ name ∈ unreadable fs
  ∨ (∃ content, ioutil.ReadFile fs name = (content, None)
                ∧ json.decode content = None) →
  setup c fs name d = with_filename c name.
Proof.
  intros H. rewrite setup_load. unfold load, with_filename. cbn [filename].
  destruct H as [Hmiss|[Hperm|(content & Hread & Hbad)]].
  - unfold ioutil.ReadFile. by rewrite Hmiss.
  - unfold ioutil.ReadFile. destruct (files fs !! name); [|done].
    by rewrite bool_decide_eq_true_2.
  - rewrite Hread. unfold json.Unmarshal. rewrite Hbad. reflexivity.
Qed.

Lemma setup_without_file_witness :
  setup uptime_cache empty_fs "/etc/telegraf/tpg_cache" 60
  = with_filename uptime_cache "/etc/telegraf/tpg_cache".
Proof.
  apply setup_without_file. left. reflexivity.
Defined.

(** * Properties of [stringSliceToUint64Slice] *)

Lemma decimal_ge s : ∀ n, n ≤ decimal n s.
Proof.
  induction s as [|d r IH]; intros n; cbn [decimal]; [lia|].
  etransitivity; [|apply IH]. lia.
Qed.

Lemma digits_saturate s : ∀ n,
  n < two64 →
  string_forallb json.is_digit s = true →
  atoi.digits n s
  = if decimal n s <? two64 then (decimal n s, None)
    else (MaxUint64, Some atoi.ErrRange).
Proof.
  induction s as [|d r IH]; intros n Hn Hs.
  - cbn [atoi.digits decimal].
    by replace (n <? two64) with true by (symmetry; by apply N.ltb_lt).
  - cbn [string_forallb] in Hs. apply andb_true_iff in Hs as [Hd Hr].
    cbn [atoi.digits decimal]. rewrite Hd.
    pose proof (decimal_ge r (n * 10 + (code d - 48))) as Hge.
    unfold atoi.cutoff.
    destruct (N.leb_spec 1844674407370955162 n) as [Hc|Hc].
    { replace (_ <? two64) with false; [done|].
      symmetry. apply N.ltb_ge. unfold two64 in *. lia. }
    destruct (N.leb_spec two64 (n * 10 + (code d - 48))) as [Ho|Ho].
    { replace (_ <? two64) with false; [done|].
      symmetry. apply N.ltb_ge. lia. }
    by apply IH.
Qed.

Lemma decimal_of_uint_acc d : ∀ acc,
  decimal (Npos acc) (NilEmpty.string_of_uint d) = Npos (Pos.of_uint_acc d acc).
Proof.
  induction d as [|d IH|d IH|d IH|d IH|d IH|d IH|d IH|d IH|d IH|d IH];
    intros acc; cbn [NilEmpty.string_of_uint decimal Pos.of_uint_acc];
    [done|rewrite <- IH; f_equal; vm_compute (code _ - 48); lia..].
Qed.

Lemma decimal_of_uint d :
  decimal 0 (NilEmpty.string_of_uint d) = N.of_uint d.
Proof.
  unfold N.of_uint.
  induction d as [|d IH|d IH|d IH|d IH|d IH|d IH|d IH|d IH|d IH|d IH];
    cbn [NilEmpty.string_of_uint decimal Pos.of_uint];
    [done|exact IH|apply (decimal_of_uint_acc d _)..].
Qed.

Lemma digits_string_of_uint d :
  string_forallb json.is_digit (NilEmpty.string_of_uint d) = true.
Proof.
  induction d; cbn [NilEmpty.string_of_uint string_forallb]; [done|exact IHd..].
Qed.

Lemma FormatUint_nonempty n : strconv.FormatUint n ≠ EmptyString.
Proof.
  unfold strconv.FormatUint. destruct n as [|p]; [done|].
  pose proof (DecimalPos.Unsigned.to_uint_nonnil p) as Hp.
  cbn [N.to_uint]. by destruct (Pos.to_uint p).
Qed.

Lemma atoi_ParseUint_FormatUint n :
  n < two64 → atoi.ParseUint (strconv.FormatUint n) = (n, None).
Proof.
  intros Hn. unfold atoi.ParseUint.
  pose proof (FormatUint_nonempty n) as Hne.
  destruct (strconv.FormatUint n) as [|c r] eqn:E; [done|]. rewrite <- E.
  unfold strconv.FormatUint.
  rewrite digits_saturate;
    [|unfold two64; lia|apply digits_string_of_uint].
  rewrite decimal_of_uint, DecimalN.Unsigned.of_to.
  by replace (n <? two64) with true by (symmetry; by apply N.ltb_lt).
Qed.

(** X8.  Decimal numerals come back as the numbers they were made from:
    converting the [FormatUint] renderings of a list of [uint64] values
    gives the list. *)
Theorem uint64_slice_round_trip (l : list N) :
  Forall (λ n, n < two64) l →
  stringSliceToUint64Slice (strconv.FormatUint <$> l) = l.
Proof.
  intros Hl. unfold stringSliceToUint64Slice.
  induction Hl as [|n r Hn Hr IH]; [done|].
  cbn [fmap list_fmap]. f_equal; [|exact IH].
  by rewrite atoi_ParseUint_FormatUint.
Qed.

Lemma uint64_slice_round_trip_witness :
  stringSliceToUint64Slice ["0"; "4294967295"; "18446744073709551615"]
  = [0; 4294967295; 18446744073709551615].
Proof.
  apply (uint64_slice_round_trip [0; 4294967295; 18446744073709551615]).
  repeat constructor.
Defined.

(** X9.  An item made of decimal digits only gives its number, or
    [MaxUint64] when the number does not fit 64 bits: the error of
    [ParseUint] is dropped and the value it returns with the error is
    kept. *)
Theorem uint64_slice_saturates (l : list string) :
  Forall (λ s, s ≠ EmptyString ∧ string_forallb json.is_digit s = true) l →
  stringSliceToUint64Slice l = (λ s, N.min (decimal 0 s) MaxUint64) <$> l.
Proof.
  intros Hl. unfold stringSliceToUint64Slice.
  apply Forall_fmap_ext_1. eapply Forall_impl; [exact Hl|].
  intros s [Hne Hd]. cbn beta. unfold atoi.ParseUint.
  destruct s as [|c r] eqn:E; [done|]. rewrite <- E in *.
  rewrite digits_saturate; [|unfold two64; lia|exact Hd].
  unfold MaxUint64, two64.
  destruct (N.ltb_spec (decimal 0 s) (18446744073709551616)); cbn [fst]; lia.
Qed.

Lemma uint64_slice_saturates_witness :
  stringSliceToUint64Slice ["0012"; "18446744073709551616"; "99999999999999999999"]
  = [12; 18446744073709551615; 18446744073709551615].
Proof.
  apply (uint64_slice_saturates
           ["0012"; "18446744073709551616"; "99999999999999999999"]).
  repeat constructor; done.
Defined.

(** X10.  The conversion never fails and keeps the length of the list.
    An empty item, and an item that starts with anything but a decimal
    digit (a sign, a blank, a quote), gives 0. *)
Theorem uint64_slice_non_numeric (l : list string) (i : nat) (s : string) :
  l !! i = Some s →
  match s with
  | EmptyString => True
  | String c _ => json.is_digit c = false
  end →
  length (stringSliceToUint64Slice l) = length l
  ∧ stringSliceToUint64Slice l !! i = Some 0.
Proof.
  intros Hi Hs. unfold stringSliceToUint64Slice.
  rewrite list_lookup_fmap, Hi, length_fmap. split; [done|].
  destruct s as [|c r]; [done|].
  change (Some (atoi.ParseUint (String c r)).1 = Some 0).
  unfold atoi.ParseUint. cbn [atoi.digits]. by rewrite Hs.
Qed.

Lemma uint64_slice_non_numeric_witness :
  length (stringSliceToUint64Slice ["12"; "-1"; " 7"]) = 3%nat
  ∧ stringSliceToUint64Slice ["12"; "-1"; " 7"] !! 2%nat = Some 0.
Proof.
  apply (uint64_slice_non_numeric ["12"; "-1"; " 7"] 2 " 7"); reflexivity.
Defined.

(** * Properties of the [strings] model *)

Lemma HasPrefix_app p : ∀ r, gostrings.HasPrefix (p +:+ r) p = true.
Proof.
  induction p as [|c p IH]; intros r; [by destruct r|].
  norm_app. cbn [gostrings.HasPrefix]. by rewrite Ascii.eqb_refl, IH.
Qed.

Lemma HasPrefix_inv p : ∀ s,
  gostrings.HasPrefix s p = true → ∃ r, s = p +:+ r.
Proof.
  induction p as [|c p IH]; intros s H.
  - exists s. by destruct s.
  - destruct s as [|x s]; [done|]. cbn [gostrings.HasPrefix] in H.
    apply andb_true_iff in H as [Hx Hs]. apply Ascii.eqb_eq in Hx as ->.
    destruct (IH s Hs) as [r ->]. by exists r.
Qed.

Lemma Index_eq s sep :
  gostrings.Index s sep
  = if gostrings.HasPrefix s sep then Some 0%nat
    else match s with
         | EmptyString => None
         | String _ r => S <$> gostrings.Index r sep
         end.
Proof. by destruct s. Qed.

Lemma string_drop_length pre : ∀ s, string_drop (String.length pre) (pre +:+ s) = s.
Proof. induction pre as [|c pre IH]; intros s; [by destruct s|]. apply IH. Qed.

(** [Index] finds an occurrence... *)
Lemma Index_Some s sep : ∀ i,
  gostrings.Index s sep = Some i →
  ∃ pre post, s = pre +:+ sep +:+ post ∧ String.length pre = i
              ∧ string_drop i s = sep +:+ post.
Proof.
  induction s as [|c s IH]; intros i; rewrite Index_eq.
  - destruct (gostrings.HasPrefix _ _) eqn:Hp; [|done].
    intros [= <-]. apply HasPrefix_inv in Hp as [r ->].
    by exists EmptyString, r.
  - destruct (gostrings.HasPrefix _ _) eqn:Hp.
    + intros [= <-]. apply HasPrefix_inv in Hp as [r ->].
      by exists EmptyString, r.
    + destruct (gostrings.Index s sep) as [j|] eqn:Hj; [|done].
      intros [= <-]. destruct (IH j eq_refl) as (pre & post & -> & <- & Hd).
      exists (String c pre), post. split; [done|]. split; [done|].
      exact Hd.
Qed.

(** ... and finds one whenever there is one. *)
Lemma Index_None s sep : gostrings.Index s sep = None → ¬ occurs sep s.
Proof.
  intros H (pre & post & ->). revert H.
  induction pre as [|c pre IH]; rewrite Index_eq.
  - norm_app. by rewrite HasPrefix_app.
  - destruct (gostrings.HasPrefix _ _); [done|]. norm_app.
    destruct (gostrings.Index (pre +:+ sep +:+ post) sep); [done|].
    intros _. by apply IH.
Qed.

Lemma occurs_drop sep s i : occurs sep (string_drop i s) → occurs sep s.
Proof.
  revert s. induction i as [|i IH]; intros s; [by destruct s|].
  destruct s as [|c s]; [done|]. cbn [string_drop]. intros H.
  destruct (IH s H) as (pre & post & ->). by exists (String c pre), post.
Qed.

Lemma HasPrefix_longer p : ∀ s t,
  (String.length p ≤ String.length s)%nat →
  gostrings.HasPrefix (s +:+ t) p = gostrings.HasPrefix s p.
Proof.
  induction p as [|c p IH]; intros s t Hl.
  - cbn [gostrings.HasPrefix]. by destruct (s +:+ t), s.
  - destruct s as [|x s]; [cbn in Hl; lia|]. norm_app.
    cbn [gostrings.HasPrefix]. rewrite IH; [done|]. cbn in Hl. lia.
Qed.

(** The first occurrence is not moved by what follows it. *)
Lemma Index_app pre sep : ∀ post,
  gostrings.Index (pre +:+ sep) sep = Some (String.length pre) →
  gostrings.Index (pre +:+ sep +:+ post) sep = Some (String.length pre).
Proof.
  induction pre as [|c pre IH]; intros post.
  - intros _. norm_app. rewrite Index_eq. by rewrite HasPrefix_app.
  - norm_app. rewrite (Index_eq (String c (pre +:+ sep))),
      (Index_eq (String c (pre +:+ sep +:+ post))).
    change (String c (pre +:+ sep +:+ post))
      with (String c pre +:+ sep +:+ post).
    rewrite <- string_app_assoc, HasPrefix_longer.
    2:{ rewrite slength_app. lia. }
    change (String c pre +:+ sep) with (String c (pre +:+ sep)).
    destruct (gostrings.HasPrefix (String c (pre +:+ sep)) sep); [done|].
    destruct (gostrings.Index (pre +:+ sep) sep) as [j|] eqn:Hj; [|done].
    intros [= ->]. by rewrite IH.
Qed.

(** A separator that starts with a byte the text before does not have is
    found right after that text. *)
Lemma Index_fresh x c sep post :
  string_forallb (λ y, negb (Ascii.eqb y c)) x = true →
  gostrings.Index (x +:+ String c sep +:+ post) (String c sep)
  = Some (String.length x).
Proof.
  intros Hx. induction x as [|y x IH].
  - rewrite sapp_nil, Index_eq. by rewrite (HasPrefix_app (String c sep) post).
  - cbn [string_forallb] in Hx. apply andb_true_iff in Hx as [Hy Hx].
    rewrite (sapp_cons y), Index_eq. cbn [gostrings.HasPrefix].
    apply negb_true_iff in Hy. rewrite Hy. cbn [andb].
    by rewrite (IH Hx).
Qed.

Lemma substring_app pre : ∀ s post,
  substring (String.length pre) (String.length s) (pre +:+ s +:+ post) = s.
Proof.
  induction pre as [|c pre IH]; intros s post.
  - norm_app. cbn [String.length]. induction s as [|x s IHs].
    + by destruct post.
    + norm_app. cbn [String.length substring]. by rewrite IHs.
  - norm_app. cbn [String.length substring]. apply IH.
Qed.

Lemma Replace_newline s :
  gostrings.Replace s newline EmptyString = without "010" s.
Proof.
  unfold gostrings.Replace. induction s as [|c s IH]; [done|].
  cbn [gostrings.replace_from without newline gostrings.HasPrefix].
  destruct (Ascii.eqb c "010").
  - cbn [andb]. replace (gostrings.HasPrefix s EmptyString) with true
      by (by destruct s).
    cbn [String.length Nat.sub]. by rewrite sapp_nil.
  - cbn [andb]. by rewrite IH.
Qed.

(** ** Split *)

Lemma split_item x : ∀ cur,
  string_forallb (λ c, negb (Ascii.eqb c ",")) x = true →
  gostrings.split_from 0 cur x "," = [string_rev cur +:+ x].
Proof.
  induction x as [|c x IH]; intros cur Hx.
  - cbn [gostrings.split_from]. by rewrite sapp_nil_r.
  - cbn [string_forallb] in Hx. apply andb_true_iff in Hx as [Hc Hx].
    apply negb_true_iff in Hc.
    cbn [gostrings.split_from gostrings.HasPrefix]. rewrite Hc. cbn [andb].
    rewrite IH by exact Hx. rewrite string_rev_cons, string_app_assoc.
    by norm_app.
Qed.

Lemma split_item_more x rest : ∀ cur,
  string_forallb (λ c, negb (Ascii.eqb c ",")) x = true →
  gostrings.split_from 0 cur (x +:+ "," +:+ rest) ","
  = (string_rev cur +:+ x) :: gostrings.split_from 0 EmptyString rest ",".
Proof.
  induction x as [|c x IH]; intros cur Hx.
  - norm_app. cbn [gostrings.split_from gostrings.HasPrefix].
    rewrite Ascii.eqb_refl. cbn [andb].
    replace (gostrings.HasPrefix rest EmptyString) with true
      by (by destruct rest).
    cbn [String.length Nat.sub]. by rewrite sapp_nil_r.
  - cbn [string_forallb] in Hx. apply andb_true_iff in Hx as [Hc Hx].
    apply negb_true_iff in Hc. norm_app.
    cbn [gostrings.split_from gostrings.HasPrefix]. rewrite Hc. cbn [andb].
    rewrite IH by exact Hx. rewrite string_rev_cons, string_app_assoc.
    by norm_app.
Qed.

Lemma Split_join l :
  l ≠ [] →
  Forall (λ x, string_forallb (λ c, negb (Ascii.eqb c ",")) x = true) l →
  gostrings.Split (join "," l) "," = l.
Proof.
  intros Hne Hl. unfold gostrings.Split.
  induction Hl as [|x r Hx Hr IH]; [done|]. cbn [join].
  destruct r as [|y r].
  - by rewrite split_item.
  - rewrite split_item_more by exact Hx. f_equal. by apply IH.
Qed.

(** ** TrimSpace *)

Lemma rev_app_acc b : ∀ acc, string_rev_app b acc = string_rev b +:+ acc.
Proof.
  unfold string_rev. induction b as [|c b IH]; intros acc; [done|].
  cbn [string_rev_app]. rewrite IH, (IH (String c EmptyString)).
  by rewrite string_app_assoc.
Qed.

Lemma string_rev_app_distr a b :
  string_rev (a +:+ b) = string_rev b +:+ string_rev a.
Proof. unfold string_rev at 1. by rewrite rev_app_app, rev_app_acc. Qed.

Lemma forallb_app f a b :
  string_forallb f (a +:+ b) = string_forallb f a && string_forallb f b.
Proof.
  induction a as [|c a IH]; [done|]. norm_app. cbn [string_forallb].
  by rewrite IH, andb_assoc.
Qed.

Lemma forallb_rev f a : string_forallb f (string_rev a) = string_forallb f a.
Proof.
  induction a as [|c a IH]; [done|].
  rewrite string_rev_cons, forallb_app, IH. cbn [string_forallb].
  by rewrite andb_true_r, andb_comm.
Qed.

Lemma forallb_get f a : ∀ k c,
  string_forallb f a = true → String.get k a = Some c → f c = true.
Proof.
  induction a as [|x a IH]; intros k c Ha Hk; [done|].
  cbn [string_forallb] in Ha. apply andb_true_iff in Ha as [Hx Ha].
  destruct k as [|k]; cbn [String.get] in Hk.
  - by injection Hk as <-.
  - by apply (IH k).
Qed.

Lemma trim_left_blank f sp x :
  string_forallb (λ c, (code c <? utf8.RuneSelf) && f (code c)) sp = true →
  gostrings.trim_left f 0 (sp +:+ x) = gostrings.trim_left f 0 x.
Proof.
  induction sp as [|c sp IH]; intros Hsp; [done|].
  cbn [string_forallb] in Hsp.
  apply andb_true_iff in Hsp as [Hc Hsp]. apply andb_true_iff in Hc as [Hc Hf].
  norm_app. cbn [gostrings.trim_left]. rewrite Hc, Hf. by apply IH.
Qed.

Lemma trim_left_solid f c x :
  (code c <? utf8.RuneSelf) && negb (f (code c)) = true →
  gostrings.trim_left f 0 (String c x) = String c x.
Proof.
  intros Hc. apply andb_true_iff in Hc as [Hc Hf].
  apply negb_true_iff in Hf. cbn [gostrings.trim_left]. by rewrite Hc, Hf.
Qed.

Lemma last_index_blank f sp back : ∀ i,
  string_forallb (λ c, (code c <? utf8.RuneSelf) && f (code c)) sp = true →
  gostrings.last_index f 0 (sp +:+ back) i
  = gostrings.last_index f 0 back (i - String.length sp).
Proof.
  induction sp as [|c sp IH]; intros i Hsp.
  - norm_app. cbn [String.length]. by rewrite Nat.sub_0_r.
  - cbn [string_forallb] in Hsp.
    apply andb_true_iff in Hsp as [Hc Hsp].
    apply andb_true_iff in Hc as [Hc Hf].
    norm_app. cbn [gostrings.last_index gostrings.decode_last].
    rewrite Hc, Hf. cbn [Nat.sub]. rewrite IH by exact Hsp.
    cbn [String.length]. f_equal. lia.
Qed.

Lemma substring_0_0 s : substring 0 0 s = EmptyString.
Proof. by destruct s. Qed.

Lemma get_app j : ∀ k sp,
  (k < String.length j)%nat → String.get k (j +:+ sp) = String.get k j.
Proof.
  induction j as [|x j IH]; intros k sp Hk; [cbn in Hk; lia|].
  norm_app. destruct k as [|k]; [done|]. cbn [String.get]. apply IH.
  cbn in Hk. lia.
Qed.

Lemma TrimRightFunc_blank f j sp :
  string_forallb (λ c, (code c <? utf8.RuneSelf) && negb (f (code c))) j = true →
  string_forallb (λ c, (code c <? utf8.RuneSelf) && f (code c)) sp = true →
  gostrings.TrimRightFunc (j +:+ sp) f = j.
Proof.
  intros Hj Hsp. unfold gostrings.TrimRightFunc.
  rewrite string_rev_app_distr, last_index_blank
    by (by rewrite forallb_rev).
  rewrite slength_app.
  replace (String.length j + String.length sp - String.length (string_rev sp))%nat
    with (String.length j).
  2:{ clear. assert (∀ a, String.length (string_rev a) = String.length a) as Hl.
      { clear. induction a as [|c a IH]; [done|].
        rewrite string_rev_cons, slength_app, IH. cbn. lia. }
      rewrite Hl. lia. }
  destruct j as [|c0 j0] eqn:Ej.
  { cbn [string_rev string_rev_app gostrings.last_index].
    apply substring_0_0. }
  rewrite <- Ej in *.
  assert (string_forallb
            (λ c, (code c <? utf8.RuneSelf) && negb (f (code c)))
            (string_rev j) = true) as Hrev by (by rewrite forallb_rev).
  destruct (string_rev j) as [|c back] eqn:Eb.
  { exfalso. apply (f_equal String.length) in Eb.
    rewrite Ej, string_rev_cons, slength_app in Eb. cbn in Eb. lia. }
  cbn [string_forallb] in Hrev. apply andb_true_iff in Hrev as [Hc _].
  apply andb_true_iff in Hc as [Hc Hf]. apply negb_true_iff in Hf.
  cbn [gostrings.last_index gostrings.decode_last]. rewrite Hc, Hf.
  assert (0 < String.length j)%nat as Hpos by (rewrite Ej; cbn; lia).
  rewrite get_app by lia.
  assert (S (String.length j - 1) = String.length j) as Hlen by lia.
  destruct (String.get (String.length j - 1) j) as [c'|] eqn:Eg.
  - pose proof (forallb_get _ _ _ _ Hj Eg) as Hc'.
    apply andb_true_iff in Hc' as [Hc' _].
    apply N.ltb_lt in Hc'.
    replace (utf8.RuneSelf <=? code c') with false
      by (symmetry; apply N.leb_gt; exact Hc').
    rewrite Hlen. apply (substring_app EmptyString j sp).
  - rewrite Hlen. apply (substring_app EmptyString j sp).
Qed.

Lemma TrimSpace_blank sp1 j sp2 :
  string_forallb solid j = true →
  string_forallb blank sp1 = true → string_forallb blank sp2 = true →
  gostrings.TrimSpace (sp1 +:+ j +:+ sp2) = j.
Proof.
  intros Hj H1 H2. unfold gostrings.TrimSpace, gostrings.TrimFunc.
  unfold gostrings.TrimLeftFunc. rewrite trim_left_blank by exact H1.
  destruct j as [|c j].
  - rewrite sapp_nil, <- (sapp_nil_r sp2), trim_left_blank by exact H2.
    cbn [gostrings.trim_left]. by apply (TrimRightFunc_blank _ EmptyString EmptyString).
  - pose proof Hj as Hj'. cbn [string_forallb] in Hj'.
    apply andb_true_iff in Hj' as [Hc _].
    rewrite sapp_cons, trim_left_solid by exact Hc.
    rewrite <- sapp_cons. by apply TrimRightFunc_blank.
Qed.

Lemma forallb_impl (f g : ascii → bool) s :
  (∀ c, f c = true → g c = true) →
  string_forallb f s = true → string_forallb g s = true.
Proof.
  intros Hfg. induction s as [|c s IH]; [done|]. cbn [string_forallb].
  intros H. apply andb_true_iff in H as [Hc Hs].
  by rewrite (Hfg c Hc), IH.
Qed.

Lemma forallb_without f c s :
  f c = true → string_forallb f (without c s) = true →
  string_forallb f s = true.
Proof.
  intros Hc. induction s as [|x s IH]; [done|]. cbn [without string_forallb].
  destruct (Ascii.eqb_spec x c) as [->|Hne].
  - intros H. by rewrite Hc, IH.
  - cbn [string_forallb]. intros H. apply andb_true_iff in H as [Hx Hs].
    by rewrite Hx, IH.
Qed.

Lemma join_forallb f sep l :
  string_forallb f sep = true →
  Forall (λ x, string_forallb f x = true) l →
  string_forallb f (join sep l) = true.
Proof.
  intros Hsep Hl. induction Hl as [|x r Hx Hr IH]; [done|]. cbn [join].
  destruct r as [|y r]; [exact Hx|].
  by rewrite !forallb_app, Hx, Hsep, IH.
Qed.

(** * Properties of [findJSArray] *)

(** X11.  [findJSArray] returns an error exactly when the opening of the
    array, [var name = new Array(] and a newline, occurs nowhere in the
    page; the slice returned with the error has the whole page as its only
    element, and the error is made from the name. *)
Theorem findJSArray_not_found (content name : string) (l : list string)
  (e : goerror) :
  findJSArray content name = Some (l, Some e)
  ↔ ¬ occurs (opening name) content ∧ l = [content]
    ∧ e = Errorf (name +:+ " not found").
Proof.
  unfold findJSArray. change ("var " +:+ name +:+ _) with (opening name).
  destruct (gostrings.Index content (opening name)) as [b|] eqn:Hi.
  - split.
    + destruct (slice _ _ _); cbn [mbind option_bind]; discriminate.
    + intros [Hno _]. exfalso. apply Hno.
      destruct (Index_Some _ _ _ Hi) as (pre & post & -> & _). by exists pre, post.
  - split.
    + intros [= <- <-]. split; [|done]. by apply Index_None.
    + by intros (_ & -> & ->).
Qed.

(** X12.  A page that has the opening of the array but no [);] anywhere
    makes [findJSArray] panic: the end of the slice expression of line 284
    lies before its start. *)
Theorem findJSArray_unterminated (content name : string) :
  occurs (opening name) content → ¬ occurs ");" content →
  findJSArray content name = None.
Proof.
  intros Hocc Hno. unfold findJSArray.
  change ("var " +:+ name +:+ _) with (opening name).
  destruct (gostrings.Index content (opening name)) as [b|] eqn:Hi.
  2:{ by apply Index_None in Hi. }
  destruct (gostrings.Index (string_drop b content) ");") as [e|] eqn:He.
  { exfalso. apply Hno, (occurs_drop _ _ b).
    destruct (Index_Some _ _ _ He) as (pre & post & -> & _). by exists pre, post. }
  unfold slice.
  replace (_ <=? _)%Z with true by (symmetry; apply Z.leb_le; lia).
  replace (_ <=? _)%Z with false; [done|].
  symmetry. apply Z.leb_gt. lia.
Qed.

Lemma findJSArray_unterminated_witness :
  findJSArray ("<script>var statusPara = new Array(" +:+ newline +:+ "1,1,0")
              "statusPara" = None.
Proof.
  apply findJSArray_unterminated.
  - by exists "<script>", "1,1,0".
  - by apply Index_None.
Defined.

(** X13.  An array as the gateway writes it is read back item by item.
    The page is some text, the opening of the array, a body, [);] and more
    text, the opening appearing for the first time where the body starts;
    the body without its newlines is the items joined by commas, with
    white space before and after.  Then [findJSArray] returns the items. *)
Theorem findJSArray_rendered (pre name body post sp1 sp2 : string)
  (items : list string) :
  gostrings.Index (pre +:+ opening name) (opening name)
    = Some (String.length pre) →
  string_forallb (λ c, negb (Ascii.eqb c ")")) name = true →
  items ≠ [] → Forall (λ x, string_forallb plain x = true) items →
  string_forallb blank sp1 = true → string_forallb blank sp2 = true →
  without "010" body = sp1 +:+ join "," items +:+ sp2 →
  findJSArray (pre +:+ opening name +:+ body +:+ ");" +:+ post) name
  = Some (items, None).
Proof.
  intros Hfirst Hname Hne Hitems H1 H2 Hbody. unfold findJSArray.
  change ("var " +:+ name +:+ _) with (opening name).
  rewrite Index_app by exact Hfirst.
  rewrite string_drop_length.
  assert (string_forallb (λ c, negb (Ascii.eqb c ")")) (opening name +:+ body)
          = true) as Hpar.
  { rewrite forallb_app. apply andb_true_iff. split.
    - unfold opening. rewrite !forallb_app, Hname. reflexivity.
    - apply (forallb_without _ "010"); [done|]. rewrite Hbody.
      rewrite !forallb_app. apply andb_true_iff. split; [|apply andb_true_iff; split].
      + revert H1. apply forallb_impl. intros c Hc.
        apply andb_true_iff in Hc as [_ Hc].
        destruct (Ascii.eqb_spec c ")") as [->|]; [discriminate|done].
      + apply join_forallb; [done|].
        eapply Forall_impl; [exact Hitems|]. intros x. apply forallb_impl.
        intros c Hc. unfold plain in Hc. by apply andb_true_iff in Hc as [_ ->].
      + revert H2. apply forallb_impl. intros c Hc.
        apply andb_true_iff in Hc as [_ Hc].
        destruct (Ascii.eqb_spec c ")") as [->|]; [discriminate|done]. }
  rewrite <- (string_app_assoc (opening name) body).
  rewrite (Index_fresh (opening name +:+ body) ")" ";" post Hpar).
  unfold slice.
  rewrite (string_app_assoc (opening name) body).
  rewrite <- (string_app_assoc pre (opening name)).
  replace (_ && _ && _) with true.
  2:{ symmetry. rewrite !andb_true_iff, !Z.leb_le.
      rewrite !slength_app. lia. }
  cbn [mbind option_bind].
  rewrite <- Nat2Z.inj_add, Nat2Z.id.
  replace (Z.to_nat _) with (String.length body)
    by (rewrite !slength_app; lia).
  rewrite <- slength_app, substring_app.
  rewrite Replace_newline, Hbody, TrimSpace_blank; [|
    |exact H1|exact H2].
  2:{ apply join_forallb; [done|]. eapply Forall_impl; [exact Hitems|].
      intros x. apply forallb_impl. intros c Hc. unfold plain in Hc.
      apply andb_true_iff in Hc as [Hc _]. by apply andb_true_iff in Hc as [Hc _]. }
  rewrite Split_join; [done|exact Hne|].
  eapply Forall_impl; [exact Hitems|]. intros x. apply forallb_impl.
  intros c Hc. unfold plain in Hc.
  apply andb_true_iff in Hc as [Hc _]. by apply andb_true_iff in Hc as [_ ->].
Qed.

Lemma findJSArray_rendered_witness :
  findJSArray status_page "statistList"
  = Some (["1000"; "2000"; "30"; "40"; "0"; "0"], None).
Proof.
  apply (findJSArray_rendered status_head "statistList" statist_body
           (newline +:+ "</SCRIPT>") EmptyString " "
           ["1000"; "2000"; "30"; "40"; "0"; "0"]).
  - vm_compute. reflexivity.
  - reflexivity.
  - discriminate.
  - repeat constructor.
  - reflexivity.
  - reflexivity.
  - vm_compute. reflexivity.
Defined.

(** * Properties of [systemStatistic] *)

Lemma wrap_int_small z :
  (-9223372036854775808 ≤ z < 9223372036854775808)%Z → wrap_int z = z.
Proof. intros Hz. unfold wrap_int. rewrite Z.mod_small; lia. Qed.

Lemma index_Some {A} (l : list A) (i : Z) :
  (0 ≤ i < len l)%Z → is_Some (index l i).
Proof.
  intros Hi. unfold index, len in *.
  replace (i <? 0)%Z with false by (symmetry; apply Z.ltb_ge; lia).
  apply lookup_lt_is_Some. lia.
Qed.

Lemma index_None {A} (l : list A) (i : Z) :
  (i < 0 ∨ len l ≤ i)%Z → index l i = None.
Proof.
  intros Hi. unfold index, len in *.
  destruct (Z.ltb_spec i 0); [done|].
  apply lookup_ge_None. lia.
Qed.

Lemma len_values l : len (stringSliceToUint64Slice l) = len l.
Proof. unfold len, stringSliceToUint64Slice. by rewrite length_fmap. Qed.

Lemma get_total c fs section key raw inc :
  initialised c →
  ∃ v c' fs', get c fs section key raw inc = Some (v, c', fs')
              ∧ initialised c' ∧ filename c' = filename c.
Proof.
  intros [[vs Hv] [bs Hb]]. unfold get.
  rewrite (checkOverflow_step _ _ _ _ _ _ _ _ Hv Hb).
  cbn [mbind option_bind]. do 3 eexists. split; [reflexivity|].
  split; [|done]. split; cbn; eauto.
Qed.

(** A row whose thirteen items exist is collected. *)
Lemma statistic_row_ok i f statList c fs :
  initialised c →
  (0 ≤ i * f)%Z → (i * f + 12 < len statList)%Z →
  (i * f + 12 < 9223372036854775808)%Z →
  ∃ c' fs' p, statistic_row i f statList c fs = Some (c', fs', p)
              ∧ initialised c' ∧ filename c' = filename c.
Proof.
  intros Hc H0 Hlen Hmax. unfold statistic_row.
  rewrite !wrap_int_small by (rewrite ?wrap_int_small; lia).
  destruct (index_Some statList (i * f + 2)) as [s2 ->]; [lia|].
  destruct (index_Some statList (i * f + 1)) as [s1 ->]; [lia|].
  cbn [mbind option_bind].
  pose proof (len_values statList) as Hv.
  destruct (index_Some (stringSliceToUint64Slice statList) (i * f + 3))
    as [v3 ->]; [lia|].
  cbn [mbind option_bind].
  destruct (get_total c fs ("system_statistic_" +:+ gostrings.Trim s2 dquote)
              "total_packets" v3 increment Hc) as (tp & c1 & fs1 & -> & Hc1 & Hf1).
  cbn [mbind option_bind].
  destruct (index_Some (stringSliceToUint64Slice statList) (i * f + 4))
    as [v4 ->]; [lia|].
  cbn [mbind option_bind].
  destruct (get_total c1 fs1 ("system_statistic_" +:+ gostrings.Trim s2 dquote)
              "total_bytes" v4 increment Hc1) as (tb & c2 & fs2 & -> & Hc2 & Hf2).
  cbn [mbind option_bind].
  destruct (index_Some (stringSliceToUint64Slice statList) (i * f + 5))
    as [v5 ->]; [lia|].
  destruct (index_Some (stringSliceToUint64Slice statList) (i * f + 6))
    as [v6 ->]; [lia|].
  destruct (index_Some (stringSliceToUint64Slice statList) (i * f + 7))
    as [v7 ->]; [lia|].
  destruct (index_Some (stringSliceToUint64Slice statList) (i * f + 8))
    as [v8 ->]; [lia|].
  destruct (index_Some (stringSliceToUint64Slice statList) (i * f + 9))
    as [v9 ->]; [lia|].
  destruct (index_Some (stringSliceToUint64Slice statList) (i * f + 10))
    as [v10 ->]; [lia|].
  destruct (index_Some (stringSliceToUint64Slice statList) (i * f + 11))
    as [v11 ->]; [lia|].
  destruct (index_Some (stringSliceToUint64Slice statList) (i * f + 12))
    as [v12 ->]; [lia|].
  cbn [mbind option_bind]. do 3 eexists. split; [reflexivity|].
  split; [exact Hc2|congruence].
Qed.

(** A row that reaches beyond the list is a panic. *)
Lemma statistic_row_panic i f statList c fs :
  (0 ≤ i * f)%Z → (len statList ≤ i * f + 12)%Z →
  (i * f + 12 < 9223372036854775808)%Z →
  statistic_row i f statList c fs = None.
Proof.
  intros H0 Hlen Hmax. unfold statistic_row.
  rewrite !wrap_int_small by (rewrite ?wrap_int_small; lia).
  rewrite (index_None (stringSliceToUint64Slice statList) (i * f + 12))
    by (rewrite len_values; lia).
  repeat match goal with
         | |- context [index ?l ?k ≫= _] =>
           destruct (index l k); cbn [mbind option_bind]; [|done]
         | |- context [get ?c ?fs ?s ?k ?v ?inc ≫= _] =>
           destruct (get c fs s k v inc) as [[[? ?] ?]|];
           cbn [mbind option_bind]; [|done]
         end.
  all: done.
Qed.

Lemma rows_ok f statList : ∀ n i c fs acc,
  initialised c → (0 ≤ i)%Z → (0 ≤ f)%Z →
  (n = 0%nat ∨ ((i + Z.of_nat n - 1) * f + 12 < len statList
                ∧ (i + Z.of_nat n - 1) * f + 12 < 9223372036854775808))%Z →
  ∃ c' fs' pts, rows n i f statList c fs acc = Some (c', fs', acc ++ pts)
                ∧ length pts = n ∧ initialised c'
                ∧ filename c' = filename c.
Proof.
  induction n as [|n IH]; intros i c fs acc Hc Hi Hf Hn.
  - exists c, fs, []. by rewrite app_nil_r.
  - destruct Hn as [|[Hlen Hmax]]; [done|]. cbn [rows].
    destruct (statistic_row_ok i f statList c fs Hc)
      as (c1 & fs1 & p & -> & Hc1 & Hf1); [nia..|].
    cbn [mbind option_bind].
    destruct (IH (i + 1)%Z c1 fs1 (acc ++ [p]) Hc1) as
      (c2 & fs2 & pts & -> & Hl & Hc2 & Hf2); [lia|lia| |].
    { destruct n; [by left|right]. split; [|].
      - replace (i + 1 + Z.of_nat (S n) - 1)%Z
          with (i + Z.of_nat (S (S n)) - 1)%Z by lia. exact Hlen.
      - replace (i + 1 + Z.of_nat (S n) - 1)%Z
          with (i + Z.of_nat (S (S n)) - 1)%Z by lia. exact Hmax. }
    exists c2, fs2, (p :: pts). rewrite <- app_assoc.
    split; [done|]. split; [cbn; lia|]. split; [done|congruence].
Qed.

Lemma rows_panic f statList : ∀ n i c fs acc,
  (0 < n)%nat → (0 ≤ i)%Z → (0 ≤ f)%Z →
  (len statList ≤ (i + Z.of_nat n - 1) * f + 12)%Z →
  ((i + Z.of_nat n - 1) * f + 12 < 9223372036854775808)%Z →
  rows n i f statList c fs acc = None.
Proof.
  induction n as [|n IH]; intros i c fs acc Hn Hi Hf Hlen Hmax; [lia|].
  cbn [rows].
  destruct (Z.le_gt_cases (len statList) (i * f + 12)) as [Hrow|Hrow].
  { rewrite statistic_row_panic; [done|nia|lia|nia]. }
  destruct (statistic_row i f statList c fs) as [[[c1 fs1] p]|]; [|done].
  cbn [mbind option_bind]. apply IH; [|lia|lia| |].
  - destruct n; [|lia]. exfalso.
    replace (i + Z.of_nat 1 - 1)%Z with i in Hlen by lia. lia.
  - by replace (i + 1 + Z.of_nat n - 1)%Z with (i + Z.of_nat (S n) - 1)%Z by lia.
  - by replace (i + 1 + Z.of_nat n - 1)%Z with (i + Z.of_nat (S n) - 1)%Z by lia.
Qed.

Lemma lookup_len {A} (l : list A) (k : nat) x :
  l !! k = Some x → (Z.of_nat k < len l)%Z ∧ index l (Z.of_nat k) = Some x.
Proof.
  intros H. split.
  - apply lookup_lt_Some in H. unfold len. lia.
  - unfold index. replace (_ <? 0)%Z with false by (symmetry; apply Z.ltb_ge; lia).
    by rewrite Nat2Z.id.
Qed.

(** X14.  [systemStatistic] checks that [StatRulePara] has five elements
    and then reads a sixth: with exactly five, and [statList] on the page,
    the call panics. *)
Theorem systemStatistic_five_parameters (g : TPLink_Gateway)
  (env : Environment) (fs : FileSystem) (acc : list point)
  (content : string) (statRulePara statList : list string) :
  fetch g env "/userRpm/SystemStatisticRpm.htm?Num_per_page=100"
    = (content, None) →
  findJSArray content "StatRulePara" = Some (statRulePara, None) →
  findJSArray content "statList" = Some (statList, None) →
  length statRulePara = 5%nat →
  systemStatistic g env fs acc = None.
Proof.
  intros Hfetch Hpara Hlist Hlen. unfold systemStatistic.
  rewrite Hfetch, Hpara. cbn [mbind option_bind].
  unfold len at 1. rewrite Hlen. cbn [Z.ltb Z.of_nat Pos.of_succ_nat Pos.succ Z.compare Pos.compare Pos.compare_cont].
  rewrite Hlist. cbn [mbind option_bind].
  destruct (index statRulePara 4); cbn [mbind option_bind]; [|done].
  rewrite (index_None statRulePara 5); [done|]. unfold len. lia.
Qed.

Lemma systemStatistic_five_parameters_witness :
  systemStatistic new_gateway
    (serving status_page (statistic_page "1,1,10,0,2")) empty_fs [] = None.
Proof.
  apply (systemStatistic_five_parameters new_gateway
           (serving status_page (statistic_page "1,1,10,0,2")) empty_fs []
           (statistic_page "1,1,10,0,2") ["1"; "1"; "10"; "0"; "2"]
           (default [] (fst <$> findJSArray (statistic_page "1,1,10,0,2") "statList")));
    vm_compute; reflexivity.
Defined.

(** X15.  With a list size [n] above zero and a list factor [f] that is not
    negative, [systemStatistic] reads the items up to index
    [(n - 1) * f + 12].  If [statList] has them, the call returns no error
    and adds exactly [n] points; if it does not, the call panics. *)
Theorem systemStatistic_rows (g : TPLink_Gateway) (env : Environment)
  (fs : FileSystem) (acc : list point) (content s4 s5 : string)
  (statRulePara statList : list string) :
  fetch g env "/userRpm/SystemStatisticRpm.htm?Num_per_page=100"
    = (content, None) →
  findJSArray content "StatRulePara" = Some (statRulePara, None) →
  findJSArray content "statList" = Some (statList, None) →
  statRulePara !! 4%nat = Some s4 → statRulePara !! 5%nat = Some s5 →
  initialised (cache g) →
  (0 < (atoi.Atoi s4).1)%Z → (0 ≤ (atoi.Atoi s5).1)%Z →
  (((atoi.Atoi s4).1 - 1) * (atoi.Atoi s5).1 + 12 < 9223372036854775808)%Z →
  if (((atoi.Atoi s4).1 - 1) * (atoi.Atoi s5).1 + 12 <? len statList)%Z
  then ∃ c' fs' pts,
         systemStatistic g env fs acc = Some (None, c', fs', acc ++ pts)
         ∧ length pts = Z.to_nat (atoi.Atoi s4).1
  else systemStatistic g env fs acc = None.
Proof.
  intros Hfetch Hpara Hlist H4 H5 Hc Hn Hf Hmax. unfold systemStatistic.
  rewrite Hfetch, Hpara. cbn [mbind option_bind].
  destruct (lookup_len _ _ _ H4) as [_ E4].
  destruct (lookup_len _ _ _ H5) as [Hl5 E5].
  change (Z.of_nat 4) with 4%Z in E4. change (Z.of_nat 5) with 5%Z in E5, Hl5.
  rewrite E4, E5.
  replace (len statRulePara <? 5)%Z with false
    by (symmetry; apply Z.ltb_ge; lia).
  rewrite Hlist. cbn [mbind option_bind].
  set (n := (atoi.Atoi s4).1) in *. set (f := (atoi.Atoi s5).1) in *.
  destruct (Z.ltb_spec ((n - 1) * f + 12) (len statList)) as [Hlen|Hlen].
  - destruct (rows_ok f statList (Z.to_nat n) 0 (cache g) fs acc Hc)
      as (c' & fs' & pts & -> & Hl & _); [lia|lia| |].
    { right. rewrite Z2Nat.id by lia. by rewrite Z.add_0_l. }
    cbn [mbind option_bind]. by exists c', fs', pts.
  - rewrite rows_panic; [done|lia|lia|lia| |].
    + rewrite Z2Nat.id by lia. by rewrite Z.add_0_l.
    + rewrite Z2Nat.id by lia. by rewrite Z.add_0_l.
Qed.

Lemma systemStatistic_rows_witness :
  ∃ c' fs' pts,
    systemStatistic new_gateway
      (serving status_page (statistic_page "1,1,10,0,2,13,0,0")) empty_fs []
    = Some (None, c', fs', [] ++ pts)
    ∧ length pts = 2%nat.
Proof.
  refine (systemStatistic_rows new_gateway
           (serving status_page (statistic_page "1,1,10,0,2,13,0,0")) empty_fs []
           (statistic_page "1,1,10,0,2,13,0,0") "2" "13"
           ["1"; "1"; "10"; "0"; "2"; "13"; "0"; "0"]
           (default [] (fst <$> findJSArray (statistic_page "1,1,10,0,2,13,0,0") "statList"))
           _ _ _ _ _ fresh_initialised _ _ _);
    try (vm_compute; reflexivity).
  vm_compute. discriminate.
Defined.

(** X16.  A list size that is zero, negative or not a number at all (then
    [Atoi] gives 0 and its error is dropped) collects nothing:
    [systemStatistic] returns no error and leaves the cache, the file
    system and the points as they were. *)
Theorem systemStatistic_no_rows (g : TPLink_Gateway) (env : Environment)
  (fs : FileSystem) (acc : list point) (content s4 s5 : string)
  (statRulePara statList : list string) :
  fetch g env "/userRpm/SystemStatisticRpm.htm?Num_per_page=100"
    = (content, None) →
  findJSArray content "StatRulePara" = Some (statRulePara, None) →
  findJSArray content "statList" = Some (statList, None) →
  statRulePara !! 4%nat = Some s4 → statRulePara !! 5%nat = Some s5 →
  ((atoi.Atoi s4).1 ≤ 0)%Z →
  systemStatistic g env fs acc = Some (None, cache g, fs, acc).
Proof.
  intros Hfetch Hpara Hlist H4 H5 Hn. unfold systemStatistic.
  rewrite Hfetch, Hpara. cbn [mbind option_bind].
  destruct (lookup_len _ _ _ H4) as [_ E4].
  destruct (lookup_len _ _ _ H5) as [Hl5 E5].
  change (Z.of_nat 4) with 4%Z in E4. change (Z.of_nat 5) with 5%Z in E5, Hl5.
  rewrite E4, E5.
  replace (len statRulePara <? 5)%Z with false
    by (symmetry; apply Z.ltb_ge; lia).
  rewrite Hlist. cbn [mbind option_bind].
  replace (Z.to_nat (atoi.Atoi s4).1) with 0%nat by lia. reflexivity.
Qed.

Lemma systemStatistic_no_rows_witness :
  systemStatistic new_gateway
    (serving status_page (statistic_page "1,1,10,0,,13,0,0")) empty_fs []
  = Some (None, fresh, empty_fs, []).
Proof.
  apply (systemStatistic_no_rows new_gateway
           (serving status_page (statistic_page "1,1,10,0,,13,0,0")) empty_fs []
           (statistic_page "1,1,10,0,,13,0,0") EmptyString "13"
           ["1"; "1"; "10"; "0"; EmptyString; "13"; "0"; "0"]
           (default [] (fst <$> findJSArray (statistic_page "1,1,10,0,,13,0,0") "statList")));
    try (vm_compute; reflexivity).
  vm_compute. discriminate.
Defined.

Lemma digits_lt s : ∀ n, n < two64 → (atoi.digits n s).1 < two64.
Proof.
  induction s as [|d r IH]; intros n Hn; cbn [atoi.digits]; [done|].
  destruct (json.is_digit d); [|done].
  destruct (atoi.cutoff <=? n); [done|].
  destruct (N.leb_spec two64 (n * 10 + (code d - 48))); [done|]. by apply IH.
Qed.

Lemma ParseUint_lt s : (atoi.ParseUint s).1 < two64.
Proof. destruct s; [done|]. by apply digits_lt. Qed.

Lemma values_lt l : Forall (λ v, v < two64) (stringSliceToUint64Slice l).
Proof.
  unfold stringSliceToUint64Slice. apply Forall_fmap, Forall_forall.
  intros s _. apply ParseUint_lt.
Qed.

(** * Counters do not disturb each other *)

(** One call on a cache whose table of base offsets is nil. *)
Lemma checkOverflow_nil_table c fs section key raw inc vs :
  values c = Some vs → baseValues c = None →
  checkOverflow c fs section key raw inc
  = if raw <? entry vs (identity section key) then None
    else Some (wrap64 (raw + 0), false,
               {| filename := filename c;
                  values := Some (<[identity section key := raw]> vs);
                  baseValues := None |}, fs).
Proof.
  intros Hv Hb. unfold checkOverflow. rewrite Hv, Hb.
  cbn [map_index map_comma_ok map_assign negb mbind option_bind].
  by destruct (raw <? entry vs (identity section key)).
Qed.

(** X17.  A call for one identity does not change what the next call for
    another identity returns: value and flag are those the call would
    have given without the first one. *)
Theorem counters_independent (c c1 : overflowCache) (fs fs1 : FileSystem)
  (s1 k1 s2 k2 : string) (r1 i1 r2 i2 v1 : N) (o1 : bool) :
  identity s1 k1 ≠ identity s2 k2 →
  checkOverflow c fs s1 k1 r1 i1 = Some (v1, o1, c1, fs1) →
  (λ x, x.1.1) <$> checkOverflow c1 fs1 s2 k2 r2 i2
  = (λ x, x.1.1) <$> checkOverflow c fs s2 k2 r2 i2.
Proof.
  intros Hne H.
  destruct (values c) as [vs|] eqn:Hv.
  2:{ unfold checkOverflow in H. rewrite Hv in H.
      cbn [map_assign] in H.
      destruct (if r1 <? _ then _ else _); discriminate. }
  destruct (baseValues c) as [bs|] eqn:Hb.
  - rewrite (checkOverflow_step _ _ _ _ _ _ _ _ Hv Hb) in H.
    cbn zeta in H. injection H as <- <- <- <-.
    erewrite (checkOverflow_step _ _ s2 k2); [|reflexivity..].
    rewrite (checkOverflow_step c fs s2 k2 _ _ _ _ Hv Hb).
    cbn zeta. cbn [fmap option_fmap option_map fst].
    rewrite (entry_insert_ne _ _ _ _ Hne).
    destruct (r2 <? entry vs (identity s2 k2));
      destruct (r1 <? entry vs (identity s1 k1));
      rewrite ?entry_insert_eq, ?(entry_insert_ne _ _ _ _ Hne); reflexivity.
  - rewrite (checkOverflow_nil_table _ _ _ _ _ _ _ Hv Hb) in H.
    destruct (r1 <? entry vs (identity s1 k1)); [discriminate|].
    injection H as <- <- <- <-.
    erewrite (checkOverflow_nil_table _ _ s2 k2); [|reflexivity..].
    rewrite (checkOverflow_nil_table c fs s2 k2 _ _ _ Hv Hb).
    rewrite (entry_insert_ne _ _ _ _ Hne).
    by destruct (r2 <? entry vs (identity s2 k2)).
Qed.

Lemma counters_independent_witness :
  (λ x, x.1.1) <$> checkOverflow
     {| filename := EmptyString;
        values := Some {[ "status_sent_bytes" := 7; "status_received_bytes" := 3 ]};
        baseValues := Some {[ "status_received_bytes" := 4294967295 ]} |}
     empty_fs "status" "sent_bytes" 5 increment
  = (λ x, x.1.1) <$> checkOverflow
     {| filename := EmptyString;
        values := Some {[ "status_sent_bytes" := 7; "status_received_bytes" := 9 ]};
        baseValues := Some ∅ |} empty_fs "status" "sent_bytes" 5 increment.
Proof.
  apply (counters_independent
           {| filename := EmptyString;
              values := Some {[ "status_sent_bytes" := 7; "status_received_bytes" := 9 ]};
              baseValues := Some ∅ |} _ empty_fs empty_fs
           "status" "received_bytes" "status" "sent_bytes" 3 increment 5 increment
           4294967298 true).
  - done.
  - vm_compute. reflexivity.
Defined.

(** * Properties of [status] *)

Lemma get_fresh_key c fs section key raw inc vs bs :
  values c = Some vs → baseValues c = Some bs →
  vs !! identity section key = None → bs !! identity section key = None →
  raw < two64 →
  get c fs section key raw inc
  = Some (raw,
          {| filename := filename c;
             values := Some (<[identity section key := raw]> vs);
             baseValues := Some bs |}, fs).
Proof.
  intros Hv Hb Hvk Hbk Hraw. unfold get.
  rewrite (checkOverflow_step _ _ _ _ _ _ _ _ Hv Hb). cbn zeta.
  unfold entry. rewrite Hvk. cbn [default].
  replace (raw <? 0) with false by (symmetry; apply N.ltb_ge; lia).
  cbn [mbind option_bind]. rewrite Hbk. cbn [default].
  by rewrite N.add_0_r, wrap64_small.
Qed.

Lemma dump_keeps_unwritable c fs : unwritable (dump c fs).2 = unwritable fs.
Proof.
  unfold dump. destruct (json.Marshal (baseValues c)) as [content [e|]]; [done|].
  unfold ioutil.WriteFile. by repeat case_bool_decide.
Qed.

Lemma dump_init c fs :
  filename c ≠ EmptyString → filename c ∉ unwritable fs →
  files (dump (init c) fs).2 !! filename c = Some "{}".
Proof.
  intros Hname Hw. unfold dump, init. cbn [baseValues filename].
  change (json.Marshal (Some ∅)) with ("{}", @None error).
  unfold ioutil.WriteFile. rewrite !bool_decide_eq_false_2 by done.
  cbn [snd files]. by rewrite lookup_insert_eq.
Qed.

(** X18.  When the uptime on the status page is below the one seen
    before, the gateway has restarted: [status] empties both tables of the
    cache and writes the empty table to the cache file (if it can be
    written).  The four counters are then reported as read from the page,
    without any offset, and the call returns no error. *)
Theorem status_reboot (g : TPLink_Gateway) (env : Environment)
  (fs : FileSystem) (acc : list point) (content s4 : string)
  (statusPara statistList : list string) (vs bs : gmap string N)
  (v0 v1 v2 v3 : N) (rest : list N) :
  fetch g env "/userRpm/StatusRpm.htm" = (content, None) →
  findJSArray content "statusPara" = Some (statusPara, None) →
  findJSArray content "statistList" = Some (statistList, None) →
  statusPara !! 1%nat = Some "1" → statusPara !! 4%nat = Some s4 →
  stringSliceToUint64Slice statistList = v0 :: v1 :: v2 :: v3 :: rest →
  values (cache g) = Some vs → baseValues (cache g) = Some bs →
  (atoi.ParseUint s4).1 < entry vs (identity "status" "uptime") →
  ∃ c' fs',
    status g env fs acc
    = Some (None, c', fs',
            acc ++ [{| measurement := "tplink_gateway";
                       fields := <["sent_packets" := v3]>
                                   (<["sent_bytes" := v1]>
                                      (<["received_packets" := v2]>
                                         (<["received_bytes" := v0]> ∅)));
                       tags := <["wan" := "1"]> (<["page" := "status"]> ∅) |}])
    ∧ baseValues c' = Some ∅
    ∧ values c' = Some (<["status_sent_packets" := v3]>
                          (<["status_sent_bytes" := v1]>
                             (<["status_received_packets" := v2]>
                                (<["status_received_bytes" := v0]> ∅))))
    ∧ (filename (cache g) ≠ EmptyString →
       filename (cache g) ∉ unwritable fs →
       files fs' !! filename (cache g) = Some "{}").
Proof.
  intros Hfetch Hpara Hlist H1 H4 Hvals Hv Hb Hup. unfold status.
  rewrite Hfetch, Hpara. cbn [mbind option_bind].
  destruct (lookup_len _ _ _ H4) as [Hl4 E4].
  destruct (lookup_len _ _ _ H1) as [_ E1].
  change (Z.of_nat 4) with 4%Z in E4, Hl4. change (Z.of_nat 1) with 1%Z in E1.
  replace (len statusPara <? 5)%Z with false
    by (symmetry; apply Z.ltb_ge; lia).
  rewrite E4. cbn [mbind option_bind].
  rewrite (checkOverflow_step _ _ _ _ _ _ _ _ Hv Hb). cbn zeta.
  apply N.ltb_lt in Hup. rewrite Hup. cbn [mbind option_bind].
  rewrite Hlist. cbn [mbind option_bind]. rewrite E1.
  cbn [mbind option_bind]. change (negb (String.eqb "1" "1")) with false.
  cbv iota.
  pose proof (values_lt statistList) as Hlt. rewrite Hvals in *.
  apply Forall_cons in Hlt as [Hv0 Hlt]. apply Forall_cons in Hlt as [Hv1 Hlt].
  apply Forall_cons in Hlt as [Hv2 Hlt]. apply Forall_cons in Hlt as [Hv3 _].
  assert (len statistList = len (v0 :: v1 :: v2 :: v3 :: rest)) as Hlen
    by (rewrite <- Hvals; symmetry; apply len_values).
  replace (len statistList <? 4)%Z with false.
  2:{ symmetry. apply Z.ltb_ge. rewrite Hlen. unfold len. cbn [length]. lia. }
  change (index (v0 :: v1 :: v2 :: v3 :: rest) 0) with (Some v0).
  change (index (v0 :: v1 :: v2 :: v3 :: rest) 1) with (Some v1).
  change (index (v0 :: v1 :: v2 :: v3 :: rest) 2) with (Some v2).
  change (index (v0 :: v1 :: v2 :: v3 :: rest) 3) with (Some v3).
  cbn [mbind option_bind].
  erewrite get_fresh_key; [|reflexivity|reflexivity|done|done|exact Hv0].
  cbn [mbind option_bind].
  erewrite get_fresh_key; [|reflexivity|reflexivity|done|done|exact Hv2].
  cbn [mbind option_bind].
  erewrite get_fresh_key; [|reflexivity|reflexivity|done|done|exact Hv1].
  cbn [mbind option_bind].
  erewrite get_fresh_key; [|reflexivity|reflexivity|done|done|exact Hv3].
  cbn [mbind option_bind].
  do 2 eexists. split; [reflexivity|]. split; [reflexivity|].
  split; [reflexivity|].
  intros Hname Hw.
  match goal with
  | |- files (dump (init ?c1) ?fs1).2 !! _ = _ =>
    apply (dump_init c1 fs1); [exact Hname|]
  end.
  by rewrite dump_keeps_unwritable.
Qed.

Lemma status_reboot_witness :
  ∃ c' fs' p,
    status running_gateway (serving status_page (statistic_page "1,1,10,0,2"))
           empty_fs []
    = Some (None, c', fs', [p])
    ∧ fields p !! "sent_bytes" = Some 2000
    ∧ baseValues c' = Some ∅
    ∧ files fs' !! "tpg_cache" = Some "{}".
Proof.
  destruct (status_reboot running_gateway
              (serving status_page (statistic_page "1,1,10,0,2")) empty_fs []
              status_page "120"
              ["1"; "1"; "0"; "21600"; "120"; "0"; "70"; "0"; "0"]
              ["1000"; "2000"; "30"; "40"; "0"; "0"]
              {[ "status_uptime" := 500 ]}
              {[ "status_sent_bytes" := 4294967295 ]}
              1000 2000 30 40 [0; 0])
    as (c' & fs' & Hcall & Hb & _ & Hfile);
    [vm_compute; reflexivity..|].
  exists c', fs'. eexists. split; [exact Hcall|].
  split; [reflexivity|]. split; [exact Hb|].
  apply Hfile; [discriminate|apply not_elem_of_empty].
Defined.

(** * Properties of [fetch] and [Gather] *)

(** X19.  Once the gateway has answered and the answer has been read,
    [fetch] returns the body for a status code from 200 to 299 and nothing
    else; for any other code it returns the empty string and an error
    made from the code. *)
Theorem fetch_status_class (g : TPLink_Gateway) (env : Environment)
  (resource : string) (r : response) :
  NewRequest env (Address g +:+ resource) = None →
  Do env {| URL := Address g +:+ resource;
            BasicAuth := (Username g, Password g);
            Referer := "http://" +:+ ip g |} = inr r →
  CopyError r = None →
  fetch g env resource
  = if (200 <=? StatusCode r)%Z && (StatusCode r <=? 299)%Z
    then (Body r, None)
    else (EmptyString, Some (Errorf_int "gateway returned %d" (StatusCode r))).
Proof.
  intros Hreq Hdo Hcopy. unfold fetch. rewrite Hreq, Hdo, Hcopy.
  destruct (Z.eqb_spec (StatusCode r ÷ 100) 2) as [Hq|Hq]; cbn [negb].
  - replace (_ && _) with true; [done|]. symmetry.
    rewrite andb_true_iff, !Z.leb_le.
    Z.to_euclidean_division_equations; lia.
  - replace (_ && _) with false; [done|]. symmetry.
    apply andb_false_iff. rewrite !Z.leb_gt.
    Z.to_euclidean_division_equations; lia.
Qed.

Lemma fetch_status_class_witness :
  fetch new_gateway (serving_with 302 status_page status_page)
        "/userRpm/StatusRpm.htm"
  = (EmptyString, Some (Errorf_int "gateway returned %d" 302)).
Proof.
  apply (fetch_status_class new_gateway
           (serving_with 302 status_page status_page)
           "/userRpm/StatusRpm.htm"
           {| StatusCode := 302; Body := status_page; CopyError := None |});
    reflexivity.
Defined.

Lemma checkOverflow_no_file c fs section key raw inc v o c' fs' :
  filename c = EmptyString →
  checkOverflow c fs section key raw inc = Some (v, o, c', fs') →
  fs' = fs ∧ filename c' = EmptyString.
Proof.
  intros Hname H. unfold checkOverflow in H.
  destruct (if raw <? _ then _ else _) as [bv|]; [|discriminate].
  cbn [mbind option_bind] in H.
  destruct (map_assign (values c) _ raw) as [vs'|]; [|discriminate].
  cbn [mbind option_bind] in H. injection H as <- <- <- <-.
  split; [|done].
  destruct (raw <? _); [|done].
  edestruct dump_unwritable as [e ->]; [|done]. by left.
Qed.

Lemma get_no_file c fs section key raw inc v c' fs' :
  filename c = EmptyString →
  get c fs section key raw inc = Some (v, c', fs') →
  fs' = fs ∧ filename c' = EmptyString.
Proof.
  intros Hname H. unfold get in H.
  destruct (checkOverflow c fs section key raw inc) as [[[[v1 o] c1] fs1]|] eqn:Hco;
    [|discriminate].
  cbn [mbind option_bind] in H. injection H as <- <- <-.
  by apply (checkOverflow_no_file _ _ _ _ _ _ _ _ _ _ Hname Hco).
Qed.

Ltac bind_in H E :=
  match type of H with
  | (?x ≫= _) = Some _ =>
    destruct x eqn:E; cbn [mbind option_bind] in H; [|discriminate]
  end.

Lemma status_no_file g env fs acc e c' fs' acc' :
  filename (cache g) = EmptyString →
  status g env fs acc = Some (e, c', fs', acc') →
  fs' = fs ∧ filename c' = EmptyString.
Proof.
  intros Hname H. unfold status in H.
  destruct (fetch g env _) as [content [err|]].
  { by injection H as <- <- <- <-. }
  destruct (findJSArray content "statusPara") as [[statusPara [err|]]|];
    cbn [mbind option_bind] in H; [| |discriminate].
  { by injection H as <- <- <- <-. }
  destruct (len statusPara <? 5)%Z.
  { by injection H as <- <- <- <-. }
  bind_in H Es4. bind_in H Eup. destruct p as [[[v o] c1] fs1].
  apply (checkOverflow_no_file _ _ _ _ _ _ _ _ _ _ Hname) in Eup as [-> Hf1].
  assert (filename (if o then init c1 else c1) = EmptyString) as Hf2
    by (by destruct o).
  assert ((if o then (dump (if o then init c1 else c1) fs).2 else fs) = fs) as Hfs.
  { destruct o; [|done]. edestruct dump_unwritable as [e' ->]; [|done]. by left. }
  rewrite Hfs in H. clear Hfs.
  set (c2 := if o then init c1 else c1) in *. clearbody c2.
  destruct (findJSArray content "statistList") as [[statistList [err|]]|];
    cbn [mbind option_bind] in H; [| |discriminate].
  { by injection H as <- <- <- <-. }
  bind_in H Es1. destruct (negb _).
  { by injection H as <- <- <- <-. }
  destruct (len statistList <? 4)%Z.
  { by injection H as <- <- <- <-. }
  bind_in H Ev0. bind_in H Eg0. destruct p as [[rb c3] fs3].
  apply (get_no_file _ _ _ _ _ _ _ _ _ Hf2) in Eg0 as [-> Hf3].
  bind_in H Ev2. bind_in H Eg2. destruct p as [[rp c4] fs4].
  apply (get_no_file _ _ _ _ _ _ _ _ _ Hf3) in Eg2 as [-> Hf4].
  bind_in H Ev1. bind_in H Eg1. destruct p as [[sb c5] fs5].
  apply (get_no_file _ _ _ _ _ _ _ _ _ Hf4) in Eg1 as [-> Hf5].
  bind_in H Ev3. bind_in H Eg3. destruct p as [[sp c6] fs6].
  apply (get_no_file _ _ _ _ _ _ _ _ _ Hf5) in Eg3 as [-> Hf6].
  by injection H as <- <- <- <-.
Qed.

Lemma statistic_row_no_file i f statList c fs c' fs' p :
  filename c = EmptyString →
  statistic_row i f statList c fs = Some (c', fs', p) →
  fs' = fs ∧ filename c' = EmptyString.
Proof.
  intros Hname H. unfold statistic_row in H.
  bind_in H Es2. bind_in H Es1. bind_in H Ev3. bind_in H Eg3.
  destruct p0 as [[tp c1] fs1].
  apply (get_no_file _ _ _ _ _ _ _ _ _ Hname) in Eg3 as [-> Hf1].
  bind_in H Ev4. bind_in H Eg4. destruct p0 as [[tb c2] fs2].
  apply (get_no_file _ _ _ _ _ _ _ _ _ Hf1) in Eg4 as [-> Hf2].
  bind_in H E5. bind_in H E6. bind_in H E7. bind_in H E8. bind_in H E9.
  bind_in H E10. bind_in H E11. bind_in H E12.
  by injection H as <- <- <-.
Qed.

Lemma rows_no_file f statList : ∀ n i c fs acc c' fs' acc',
  filename c = EmptyString →
  rows n i f statList c fs acc = Some (c', fs', acc') →
  fs' = fs ∧ filename c' = EmptyString.
Proof.
  induction n as [|n IH]; intros i c fs acc c' fs' acc' Hname H.
  - by injection H as <- <- <-.
  - cbn [rows] in H. bind_in H Erow. destruct p as [[c1 fs1] p].
    apply (statistic_row_no_file _ _ _ _ _ _ _ _ Hname) in Erow as [-> Hf1].
    by apply (IH _ _ _ _ _ _ _ Hf1 H).
Qed.

Lemma systemStatistic_no_file g env fs acc e c' fs' acc' :
  filename (cache g) = EmptyString →
  systemStatistic g env fs acc = Some (e, c', fs', acc') →
  fs' = fs ∧ filename c' = EmptyString.
Proof.
  intros Hname H. unfold systemStatistic in H.
  destruct (fetch g env _) as [content [err|]].
  { by injection H as <- <- <- <-. }
  destruct (findJSArray content "StatRulePara") as [[statRulePara [err|]]|];
    cbn [mbind option_bind] in H; [| |discriminate].
  { by injection H as <- <- <- <-. }
  destruct (len statRulePara <? 5)%Z.
  { by injection H as <- <- <- <-. }
  destruct (findJSArray content "statList") as [[statList [err|]]|];
    cbn [mbind option_bind] in H; [| |discriminate].
  { by injection H as <- <- <- <-. }
  bind_in H E4. bind_in H E5. bind_in H Erows. destruct p as [[c1 fs1] acc1].
  injection H as <- <- <- <-.
  by apply (rows_no_file _ _ _ _ _ _ _ _ _ _ Hname Erows).
Qed.

(** X20.  A gateway without a cache file never touches the file system:
    whatever the pages say, when [Gather] returns, the file system is the
    one it started with, and the gateway still has no cache file. *)
Theorem Gather_without_cache_file (g g' : TPLink_Gateway) (env : Environment)
  (fs fs' : FileSystem) (acc acc' : list point) (e : option goerror) :
  CacheFile g = EmptyString → filename (cache g) = EmptyString →
  Gather g env fs acc = Some (e, g', fs', acc') →
  fs' = fs ∧ CacheFile g' = EmptyString ∧ filename (cache g') = EmptyString.
Proof.
  intros Hcf Hname H. unfold Gather in H.
  set (looked_up := if String.eqb (ip g) EmptyString then _ else _) in H.
  assert (match looked_up with
          | inl _ => True
          | inr g1 => CacheFile g1 = EmptyString ∧ cache g1 = cache g
          end) as Hg1.
  { unfold looked_up. destruct (String.eqb (ip g) EmptyString); [|done].
    destruct (url_Parse env (Address g)) as [|host]; [done|].
    destruct (LookupHost env host) as [|[|a addrs]]; done. }
  destruct looked_up as [err|g1].
  { by injection H as <- <- <- <-. }
  destruct Hg1 as [Hcf1 Hc1]. rewrite Hcf1 in H. cbn [String.eqb negb] in H.
  bind_in H Est. destruct p as [[[e1 c1] fs1] acc1].
  apply status_no_file in Est as [-> Hf1]; [|by rewrite Hc1].
  destruct e1 as [err|].
  { by injection H as <- <- <- <-. }
  bind_in H Ess. destruct p as [[[e2 c2] fs2] acc2].
  apply systemStatistic_no_file in Ess as [-> Hf2]; [|exact Hf1].
  by injection H as <- <- <- <-.
Qed.

Lemma Gather_without_cache_file_witness :
  (λ r, r.1.2) <$> Gather new_gateway
     (serving status_page (statistic_page "1,1,10,0,2,13,0,0")) empty_fs []
  = Some empty_fs.
Proof.
  destruct (Gather new_gateway
              (serving status_page (statistic_page "1,1,10,0,2,13,0,0"))
              empty_fs []) as [[[[e g'] fs'] acc']|] eqn:H.
  - by destruct (Gather_without_cache_file new_gateway g' _ empty_fs fs' [] acc' e
                   eq_refl eq_refl H) as [-> _].
  - vm_compute in H. discriminate.
Defined.

(** X21.  With a cache file set and a dump interval that
    [time.ParseDuration] rejects, [Gather] fails before any page is
    fetched: it returns an error and leaves the cache, the file system
    and the points as they were. *)
Theorem Gather_bad_interval (g : TPLink_Gateway) (env : Environment)
  (fs : FileSystem) (acc : list point) (err : goerror) :
  CacheFile g ≠ EmptyString →
  ParseDuration env (DumpInterval g) = inl err →
  ∃ e g', Gather g env fs acc = Some (Some e, g', fs, acc)
          ∧ cache g' = cache g.
Proof.
  intros Hcf Hd. unfold Gather.
  set (looked_up := if String.eqb (ip g) EmptyString then _ else _).
  assert (match looked_up with
          | inl _ => True
          | inr g1 => CacheFile g1 = CacheFile g ∧ cache g1 = cache g
                      ∧ DumpInterval g1 = DumpInterval g
          end) as Hg1.
  { unfold looked_up. destruct (String.eqb (ip g) EmptyString); [|done].
    destruct (url_Parse env (Address g)) as [|host]; [done|].
    destruct (LookupHost env host) as [|[|a addrs]]; done. }
  destruct looked_up as [e|g1]; [by exists e, g|].
  destruct Hg1 as (Hcf1 & Hc1 & Hd1). rewrite Hcf1, Hd1, Hd.
  apply String.eqb_neq in Hcf. rewrite Hcf. cbn [negb].
  by exists err, g1.
Qed.

Lemma Gather_bad_interval_witness :
  ∃ e g',
    Gather cached_gateway (serving status_page (statistic_page "1,1,10,0,2"))
           empty_fs []
    = Some (Some e, g', empty_fs, [])
    ∧ cache g' = cache cached_gateway.
Proof.
  apply (Gather_bad_interval cached_gateway
           (serving status_page (statistic_page "1,1,10,0,2")) empty_fs []
           (Foreign "time: invalid duration ")).
  - discriminate.
  - reflexivity.
Defined.

(** * What the collectors add *)

(** X22.  [status] adds a point only when it succeeds: when it returns an
    error the accumulator is as it was, and when it returns none exactly
    one point has been added after those already there. *)
Theorem status_adds_one_point (g : TPLink_Gateway) (env : Environment)
  (fs fs' : FileSystem) (acc acc' : list point) (e : option goerror)
  (c' : overflowCache) :
  status g env fs acc = Some (e, c', fs', acc') →
  match e with
  | Some _ => acc' = acc
  | None => ∃ p, acc' = acc ++ [p] ∧ measurement p = "tplink_gateway"
  end.
Proof.
  intros H. unfold status in H.
  destruct (fetch g env _) as [content [err|]].
  { by injection H as <- <- <- <-. }
  destruct (findJSArray content "statusPara") as [[statusPara [err|]]|];
    cbn [mbind option_bind] in H; [| |discriminate].
  { by injection H as <- <- <- <-. }
  destruct (len statusPara <? 5)%Z.
  { by injection H as <- <- <- <-. }
  bind_in H Es4. bind_in H Eup. destruct p as [[[v o] c1] fs1].
  destruct (findJSArray content "statistList") as [[statistList [err|]]|];
    cbn [mbind option_bind] in H; [| |discriminate].
  { by injection H as <- <- <- <-. }
  bind_in H Es1. destruct (negb _).
  { by injection H as <- <- <- <-. }
  destruct (len statistList <? 4)%Z.
  { by injection H as <- <- <- <-. }
  bind_in H Ev0. bind_in H Eg0. destruct p as [[rb c3] fs3].
  bind_in H Ev2. bind_in H Eg2. destruct p as [[rp c4] fs4].
  bind_in H Ev1. bind_in H Eg1. destruct p as [[sb c5] fs5].
  bind_in H Ev3. bind_in H Eg3. destruct p as [[sp c6] fs6].
  injection H as <- <- <- <-. by eexists.
Qed.

Lemma status_adds_one_point_witness :
  ∃ err c' fs',
    status new_gateway (serving_with 302 status_page status_page) empty_fs []
    = Some (Some err, c', fs', []).
Proof.
  destruct (status new_gateway (serving_with 302 status_page status_page)
              empty_fs []) as [[[[e c'] fs'] acc']|] eqn:H;
    [|vm_compute in H; discriminate].
  pose proof (status_adds_one_point _ _ _ _ _ _ _ _ H) as Hacc.
  destruct e as [err|]; [|vm_compute in H; discriminate].
  rewrite Hacc. by exists err, c', fs'.
Defined.

(** X23.  [systemStatistic] returns an error only before it has done
    anything: when it returns one, the cache, the file system and the
    accumulator are as they were.  Once rows are being read, the call
    either completes or panics. *)
Theorem systemStatistic_error_is_early (g : TPLink_Gateway)
  (env : Environment) (fs fs' : FileSystem) (acc acc' : list point)
  (err : goerror) (c' : overflowCache) :
  systemStatistic g env fs acc = Some (Some err, c', fs', acc') →
  c' = cache g ∧ fs' = fs ∧ acc' = acc.
Proof.
  intros H. unfold systemStatistic in H.
  destruct (fetch g env _) as [content [e|]].
  { by injection H as _ <- <- <-. }
  destruct (findJSArray content "StatRulePara") as [[statRulePara [e|]]|];
    cbn [mbind option_bind] in H; [| |discriminate].
  { by injection H as _ <- <- <-. }
  destruct (len statRulePara <? 5)%Z.
  { by injection H as _ <- <- <-. }
  destruct (findJSArray content "statList") as [[statList [e|]]|];
    cbn [mbind option_bind] in H; [| |discriminate].
  { by injection H as _ <- <- <-. }
  bind_in H E4. bind_in H E5. bind_in H Erows. destruct p as [[c1 fs1] acc1].
  discriminate.
Qed.

Lemma systemStatistic_error_is_early_witness :
  ∃ err,
    systemStatistic running_gateway (serving status_page status_page)
                    empty_fs []
    = Some (Some err, cache running_gateway, empty_fs, []).
Proof.
  destruct (systemStatistic running_gateway (serving status_page status_page)
              empty_fs []) as [[[[[err|] c'] fs'] acc']|] eqn:H;
    [|vm_compute in H; discriminate..].
  destruct (systemStatistic_error_is_early _ _ _ _ _ _ _ _ H) as (-> & -> & ->).
  by exists err.
Defined.
